(** * The user feature of myApp: schemas, service and store

    A shallow embedding of

    - [features/users/types/user.types.ts]: [createUserSchema],
      [updateUserSchema], [userResponseSchema];
    - [features/users/services/userService.ts]: [userService];
    - [features/users/store/userStore.ts]: [useUserStore];

    together with the parts of their libraries the three files rely on:
    the string and object schemas of zod, the promise returned by an axios
    call, and zustand's [set]. *)

From Stdlib Require Import NArith ZArith Ascii String Bool Lia.
From stdpp Require Import base option list numbers strings pretty.

Set Warnings "-register-all".

Open Scope string_scope.
Open Scope list_scope.
Open Scope nat_scope.

(** ** JavaScript values *)

Module JS.

(** A JavaScript string is a sequence of UTF-16 code units; [length] is the
    string's [.length] and equality of lists is [===]. *)
Definition jstring : Type := list N.

Definition codeUnit (a : ascii) : N := N_of_ascii a.

(** The string literal [s], for literals written in ASCII. *)
Definition js (s : string) : jstring := map codeUnit (list_ascii_of_string s).

(** Untyped data as it reaches a schema: a form's values or the body of a
    response. A property that is absent reads as [JUndefined]. *)
Inductive jsval : Type :=
| JUndefined
| JNull
| JBool (b : bool)
| JNumber (z : Z)
| JString (s : jstring)
| JArray (items : list jsval)
| JObject (props : list (string * jsval)).

(** [obj[key]] on a list of own properties. *)
Fixpoint getOwn (key : string) (props : list (string * jsval)) : jsval :=
  match props with
  | [] => JUndefined
  | (k, v) :: rest => if String.eqb k key then v else getOwn key rest
  end.

End JS.
Import JS.

(** ** Regular expressions

    The patterns of the schemas, matched by derivatives. A pattern written
    [^...$] is matched against the whole string; a lookahead at the start of
    the pattern is a conjunct that may be followed by anything. *)

Module Regex.

Inductive regex : Type :=
| Void
| Eps
| Cls (p : N -> bool)
| Cat (a b : regex)
| Alt (a b : regex)
| Star (a : regex)
| And (a b : regex)
| Not (a : regex).

Fixpoint acceptsEmpty (r : regex) : bool :=
  match r with
  | Void => false
  | Eps => true
  | Cls _ => false
  | Cat a b => acceptsEmpty a && acceptsEmpty b
  | Alt a b => acceptsEmpty a || acceptsEmpty b
  | Star _ => true
  | And a b => acceptsEmpty a && acceptsEmpty b
  | Not a => negb (acceptsEmpty a)
  end.

Fixpoint deriv (c : N) (r : regex) : regex :=
  match r with
  | Void => Void
  | Eps => Void
  | Cls p => if p c then Eps else Void
  | Cat a b =>
      if acceptsEmpty a then Alt (Cat (deriv c a) b) (deriv c b)
      else Cat (deriv c a) b
  | Alt a b => Alt (deriv c a) (deriv c b)
  | Star a => Cat (deriv c a) (Star a)
  | And a b => And (deriv c a) (deriv c b)
  | Not a => Not (deriv c a)
  end.

Fixpoint matches (r : regex) (s : jstring) : bool :=
  match s with
  | [] => acceptsEmpty r
  | c :: rest => matches (deriv c r) rest
  end.

(** The language of a pattern, for reasoning. *)
Inductive star (L : jstring -> Prop) : jstring -> Prop :=
| star_nil : star L []
| star_app s t : L s -> star L t -> star L (s ++ t).

Fixpoint lang (r : regex) (s : jstring) : Prop :=
  match r with
  | Void => False
  | Eps => s = []
  | Cls p => exists c, s = [c] /\ p c = true
  | Cat a b => exists s1 s2, s = s1 ++ s2 /\ lang a s1 /\ lang b s2
  | Alt a b => lang a s \/ lang b s
  | Star a => star (lang a) s
  | And a b => lang a s /\ lang b s
  | Not a => ~ lang a s
  end.

(** Character classes. *)
Definition range (lo hi : ascii) (c : N) : bool :=
  (codeUnit lo <=? c)%N && (c <=? codeUnit hi)%N.
Definition chr (a : ascii) (c : N) : bool := (c =? codeUnit a)%N.
Definition oneOf (ps : list (N -> bool)) (c : N) : bool :=
  existsb (fun p => p c) ps.

Definition lower : N -> bool := range "a" "z".
Definition upper : N -> bool := range "A" "Z".
(** [\d] *)
Definition digit : N -> bool := range "0" "9".

(** Line terminators: LF, CR, U+2028 and U+2029. *)
Definition lineTerminator (c : N) : bool :=
  (c =? 10)%N || (c =? 13)%N || (c =? 8232)%N || (c =? 8233)%N.
(** [.] without the [s] flag matches any code unit but a line terminator. *)
Definition dot (c : N) : bool := negb (lineTerminator c).
Definition anyChar (_ : N) : bool := true.

(** [r+], [r{n}] and [r{n,}]. *)
Definition plus (r : regex) : regex := Cat r (Star r).
Fixpoint times (n : nat) (r : regex) : regex :=
  match n with
  | O => Eps
  | S m => Cat r (times m r)
  end.
Definition atLeast (n : nat) (r : regex) : regex := Cat (times n r) (Star r).
Definition opt (r : regex) : regex := Alt Eps r.

(** [(?=r)] at the start of a pattern: some prefix of the string matches
    [r]. [(?!r)] is its complement. *)
Definition lookahead (r : regex) : regex := Cat r (Star (Cls anyChar)).

End Regex.
Import Regex.

(** ** zod: issues, schemas, [safeParse] and [parse] *)

Module Zod.

Inductive pathElem : Type :=
| Key (k : string)
| Index (i : nat).

Inductive issueCode : Type :=
| invalid_type
| too_small
| too_big
| invalid_string.

(** One violated rule: where, and what to tell the user. *)
Record ZodIssue : Type := mkIssue {
  code : issueCode;
  path : list pathElem;
  message : string
}.

(** The result of [schema.safeParse(data)]: [{ success: true, data }] or
    [{ success: false, error }], the error holding every issue found. *)
Inductive validation (A : Type) : Type :=
| Valid (data : A)
| Invalid (issues : list ZodIssue).
Arguments Valid {A} data.
Arguments Invalid {A} issues.

Definition schema (A : Type) : Type := list pathElem -> jsval -> validation A.

Definition safeParse {A} (s : schema A) (data : jsval) : validation A := s [] data.

(** The name zod gives to the type of a value. *)
Definition parsedType (v : jsval) : string :=
  match v with
  | JUndefined => "undefined"
  | JNull => "null"
  | JBool _ => "boolean"
  | JNumber _ => "number"
  | JString _ => "string"
  | JArray _ => "array"
  | JObject _ => "object"
  end.

(** The issue for a value of the wrong type, with the default message. *)
Definition invalidType (p : list pathElem) (expected : string) (v : jsval) : ZodIssue :=
  mkIssue invalid_type p
    match v with
    | JUndefined => "Required"
    | _ => ("Expected " ++ expected ++ ", received " ++ parsedType v)%string
    end.

(** The formats of zod 3.22. *)

(** The pattern of [email()], with the flag [i], its parts set apart:
    [^ (?!\.) (?!.*\.\.) ( [A-Z0-9_+-\.]* ) [A-Z0-9_+-] @ ( [A-Z0-9] [A-Z0-9\-]* \. )+ [A-Z]{2,} $].
    In the first class [+-\.] is the range from [+] to [.]. *)
Definition alnum : N -> bool := oneOf [upper; lower; digit].
Definition emailRegex : regex :=
  And (Not (lookahead (Cls (chr "."))))
 (And (Not (lookahead (Cat (Star (Cls dot)) (Cat (Cls (chr ".")) (Cls (chr "."))))))
      (Cat (Star (Cls (oneOf [alnum; chr "_"; range "+" "."])))
      (Cat (Cls (oneOf [alnum; chr "_"; chr "+"; chr "-"]))
      (Cat (Cls (chr "@"))
      (Cat (plus (Cat (Cls alnum)
                 (Cat (Star (Cls (oneOf [alnum; chr "-"]))) (Cls (chr ".")))))
           (atLeast 2 (Cls (oneOf [upper; lower])))))))).

(** The pattern of [uuid()], with the flag [i]:
    [^[0-9a-fA-F]{8}\b-[0-9a-fA-F]{4}\b-[0-9a-fA-F]{4}\b-[0-9a-fA-F]{4}\b-[0-9a-fA-F]{12}$].
    Each [\b] stands between a hexadecimal digit and a dash, where it holds. *)
Definition hex : N -> bool := oneOf [digit; range "a" "f"; range "A" "F"].
Definition uuidRegex : regex :=
  let dash := Cls (chr "-") in
  Cat (times 8 (Cls hex)) (Cat dash
 (Cat (times 4 (Cls hex)) (Cat dash
 (Cat (times 4 (Cls hex)) (Cat dash
 (Cat (times 4 (Cls hex)) (Cat dash
      (times 12 (Cls hex))))))))).

(** The pattern of [datetime()] called without options:
    [^\d{4}-\d{2}-\d{2}T\d{2}:\d{2}:\d{2}(\.\d+)?Z$]. *)
Definition datetimeRegex : regex :=
  let d2 := times 2 (Cls digit) in
  Cat (times 4 (Cls digit)) (Cat (Cls (chr "-")) (Cat d2 (Cat (Cls (chr "-")) (Cat d2
 (Cat (Cls (chr "T")) (Cat d2 (Cat (Cls (chr ":")) (Cat d2 (Cat (Cls (chr ":")) (Cat d2
 (Cat (opt (Cat (Cls (chr ".")) (plus (Cls digit))))
      (Cls (chr "Z"))))))))))))).

(** The checks of a string schema, in the order they were chained. [min]
    and [max] carry the message the schema gives them; a format's message
    defaults to zod's. *)
Inductive stringCheck : Type :=
| min (value : nat) (msg : string)
| max (value : nat) (msg : string)
| email (msg : option string)
| uuid (msg : option string)
| datetime (msg : option string)
| regexCheck (re : jstring -> bool) (msg : string).

(** What one check adds to the issues of the string [s] found at [p]. *)
Definition runCheck (p : list pathElem) (s : jstring) (c : stringCheck) : list ZodIssue :=
  match c with
  | min value msg =>
      if length s <? value then [mkIssue too_small p msg] else []
  | max value msg =>
      if value <? length s then [mkIssue too_big p msg] else []
  | email msg =>
      if matches emailRegex s then []
      else [mkIssue invalid_string p (default "Invalid email" msg)]
  | uuid msg =>
      if matches uuidRegex s then []
      else [mkIssue invalid_string p (default "Invalid uuid" msg)]
  | datetime msg =>
      if matches datetimeRegex s then []
      else [mkIssue invalid_string p (default "Invalid datetime" msg)]
  | regexCheck re msg =>
      if re s then [] else [mkIssue invalid_string p msg]
  end.

(** [z.string()] with its checks: a value that is not a string is one
    issue and no check runs; on a string every check runs. *)
Definition zstring (checks : list stringCheck) : schema jstring :=
  fun p v =>
    match v with
    | JString s =>
        match flat_map (runCheck p s) checks with
        | [] => Valid s
        | issues => Invalid issues
        end
    | _ => Invalid [invalidType p "string" v]
    end.

(** [z.boolean()] *)
Definition zboolean : schema bool :=
  fun p v =>
    match v with
    | JBool b => Valid b
    | _ => Invalid [invalidType p "boolean" v]
    end.

Definition vmap {A B} (f : A -> B) (r : validation A) : validation B :=
  match r with
  | Valid a => Valid (f a)
  | Invalid issues => Invalid issues
  end.

(** Two parts of one value: the issues of both are kept. *)
Definition vap {A B} (f : validation (A -> B)) (x : validation A) : validation B :=
  match f, x with
  | Valid g, Valid a => Valid (g a)
  | Valid _, Invalid j => Invalid j
  | Invalid i, Valid _ => Invalid i
  | Invalid i, Invalid j => Invalid (i ++ j)
  end.

(** [inner.optional()] *)
Definition optional {A} (inner : schema A) : schema (option A) :=
  fun p v =>
    match v with
    | JUndefined => Valid None
    | _ => vmap Some (inner p v)
    end.

(** [inner.nullable()] *)
Definition nullable {A} (inner : schema A) : schema (option A) :=
  fun p v =>
    match v with
    | JNull => Valid None
    | _ => vmap Some (inner p v)
    end.

(** The items of an array from index [i] on. *)
Fixpoint parseItems {A} (elem : schema A) (p : list pathElem) (i : nat)
    (items : list jsval) : validation (list A) :=
  match items with
  | [] => Valid []
  | v :: rest => vap (vmap cons (elem (p ++ [Index i]) v)) (parseItems elem p (S i) rest)
  end.

(** [z.array(elem)] *)
Definition zarray {A} (elem : schema A) : schema (list A) :=
  fun p v =>
    match v with
    | JArray items => parseItems elem p 0 items
    | _ => Invalid [invalidType p "array" v]
    end.

(** One key of the shape of an object: the schema of the key applied to
    [data[key]]. Keys outside the shape are dropped. *)
Definition field {A} (key : string) (s : schema A)
    (p : list pathElem) (props : list (string * jsval)) : validation A :=
  s (p ++ [Key key]) (getOwn key props).

(** [z.object(shape)], the shape given as the parser of its keys. *)
Definition zobject {A} (shape : list pathElem -> list (string * jsval) -> validation A)
    : schema A :=
  fun p v =>
    match v with
    | JObject props => shape p props
    | _ => Invalid [invalidType p "object" v]
    end.

End Zod.
Import Zod.

(** ** axios: what a request settles to *)

Module Axios.

(** The error of a request that did not succeed: [status] is
    [error.response?.status], absent when no response came. *)
Record error : Type := mkError {
  errorMessage : string;
  status : option Z
}.

(** A request is fulfilled with the body of a response whose status is a
    success ([response.data]), or rejected. *)
Inductive settled : Type :=
| Fulfilled (data : jsval)
| Rejected (e : error).

(** The instance [api], by what the server answers to each request. *)
Record instance : Type := mkInstance {
  get : jstring -> settled;
  post : jstring -> jsval -> settled;
  put : jstring -> jsval -> settled;
  delete : jstring -> settled
}.

End Axios.

(** ** What is thrown, and promises *)

(** The values the code under study can catch. Both error classes extend
    [Error]. *)
Inductive thrown : Type :=
| ZodError (issues : list ZodIssue)
| AxiosError (e : Axios.error)
| NonError (v : jsval).

(** [error.message]. The message of a [ZodError] is the JSON text of its
    issues; it is kept as the issues themselves. *)
Inductive jsmessage : Type :=
| Text (s : string)
| IssuesJson (issues : list ZodIssue).

(** [error instanceof Error ? error.message : fallback] *)
Definition errorText (e : thrown) (fallback : string) : jsmessage :=
  match e with
  | ZodError issues => IssuesJson issues
  | AxiosError e => Text (Axios.errorMessage e)
  | NonError _ => Text fallback
  end.



(** How a piece of code completes. The promise of an [async] function is
    fulfilled with what its body returns and rejected with what it throws,
    so the same type describes a settled promise. *)
Inductive completion (A : Type) : Type :=
| Return (a : A)
| Throw (e : thrown).
Arguments Return {A} a.
Arguments Throw {A} e.

#[global] Instance completion_ret : MRet completion := @Return.
#[global] Instance completion_bind : MBind completion :=
  fun A B f m =>
    match m with
    | Return a => f a
    | Throw e => Throw e
    end.

(** [schema.parse(data)]: the data, or a thrown [ZodError]. *)
Definition parse {A} (s : schema A) (data : jsval) : completion A :=
  match safeParse s data with
  | Valid a => Return a
  | Invalid issues => Throw (ZodError issues)
  end.

(** [await] on a request. *)
Definition awaitRequest (r : Axios.settled) : completion jsval :=
  match r with
  | Axios.Fulfilled data => Return data
  | Axios.Rejected e => Throw (AxiosError e)
  end.

(** ** user.types.ts *)

Module CreateUserDTO.
Record t : Type := mk {
  name : jstring;
  email : jstring;
  password : jstring
}.
End CreateUserDTO.

Module UpdateUserDTO.
Record t : Type := mk {
  name : option jstring;
  email : option jstring;
  password : option jstring
}.
End UpdateUserDTO.

Module User.
Record t : Type := mk {
  id : jstring;
  name : jstring;
  email : jstring;
  created_at : jstring;
  updated_at : jstring;
  deleted_at : option jstring;
  is_active : bool
}.
End User.

Infix "<*>" := vap (at level 61, left associativity).

Definition nameSchema : schema jstring :=
  zstring [min 1 "O nome é obrigatório";
           max 255 "O nome deve conter no máximo 255 caracteres"].

Definition emailSchema : schema jstring :=
  zstring [email (Some "Email inválido");
           min 1 "O email é obrigatório"].

(** The pattern of the password, [^(?=.*[a-z])(?=.*[A-Z])(?=.*\d)]. *)
Definition passwordRegex : regex :=
  And (lookahead (Cat (Star (Cls dot)) (Cls lower)))
 (And (lookahead (Cat (Star (Cls dot)) (Cls upper)))
      (lookahead (Cat (Star (Cls dot)) (Cls digit)))).

Definition passwordSchema : schema jstring :=
  zstring [min 6 "A senha deve ter no mínimo 6 caracteres";
           regexCheck (matches passwordRegex)
             "A senha deve conter pelo menos uma letra maiúscula, uma minúscula e um número"].

Definition createUserSchema : schema CreateUserDTO.t :=
  zobject (fun p props =>
    vmap CreateUserDTO.mk (field "name" nameSchema p props)
      <*> field "email" emailSchema p props
      <*> field "password" passwordSchema p props).

(** [createUserSchema.partial()]: the same keys, each made optional. *)
Definition updateUserSchema : schema UpdateUserDTO.t :=
  zobject (fun p props =>
    vmap UpdateUserDTO.mk (field "name" (optional nameSchema) p props)
      <*> field "email" (optional emailSchema) p props
      <*> field "password" (optional passwordSchema) p props).

Definition userResponseSchema : schema User.t :=
  zobject (fun p props =>
    vmap User.mk (field "id" (zstring [uuid None]) p props)
      <*> field "name" (zstring []) p props
      <*> field "email" (zstring [email None]) p props
      <*> field "created_at" (zstring [datetime None]) p props
      <*> field "updated_at" (zstring [datetime None]) p props
      <*> field "deleted_at" (nullable (zstring [datetime None])) p props
      <*> field "is_active" zboolean p props).

(** The validated data as the body of a request. *)
Definition createBody (d : CreateUserDTO.t) : jsval :=
  JObject [("name", JString (CreateUserDTO.name d));
           ("email", JString (CreateUserDTO.email d));
           ("password", JString (CreateUserDTO.password d))].

Definition optionalProp (key : string) (v : option jstring) : list (string * jsval) :=
  match v with
  | Some s => [(key, JString s)]
  | None => []
  end.

Definition updateBody (d : UpdateUserDTO.t) : jsval :=
  JObject (optionalProp "name" (UpdateUserDTO.name d)
        ++ optionalProp "email" (UpdateUserDTO.email d)
        ++ optionalProp "password" (UpdateUserDTO.password d)).

(** ** userService.ts *)

Module userService.
Section WithApi.

Variable api : Axios.instance.

Definition create (userData : jsval) : completion User.t :=
  validatedData ← parse createUserSchema userData;
  response ← awaitRequest (Axios.post api (js "/users") (createBody validatedData));
  parse userResponseSchema response.

Definition update (id : jstring) (userData : jsval) : completion User.t :=
  validatedData ← parse updateUserSchema userData;
  response ← awaitRequest (Axios.put api (js "/users/" ++ id) (updateBody validatedData));
  parse userResponseSchema response.

Definition delete (id : jstring) : completion unit :=
  _ ← awaitRequest (Axios.delete api (js "/users/" ++ id));
  Return tt.

Definition getById (id : jstring) : completion User.t :=
  response ← awaitRequest (Axios.get api (js "/users/" ++ id));
  parse userResponseSchema response.

Definition list : completion (Datatypes.list User.t) :=
  response ← awaitRequest (Axios.get api (js "/users"));
  parse (zarray userResponseSchema) response.

End WithApi.
End userService.

(** ** userStore.ts *)

Module UserState.
Record t : Type := mk {
  users : list User.t;
  loading : bool;
  error : option jsmessage;
  selectedUser : option User.t
}.
End UserState.

(** One key of the object given to zustand's [set]. *)
Inductive assignment : Type :=
| Users (users : list User.t)
| Loading (loading : bool)
| Error (error : option jsmessage)
| SelectedUser (user : option User.t).

Definition assign (s : UserState.t) (a : assignment) : UserState.t :=
  match a with
  | Users us =>
      UserState.mk us (UserState.loading s) (UserState.error s) (UserState.selectedUser s)
  | Loading b =>
      UserState.mk (UserState.users s) b (UserState.error s) (UserState.selectedUser s)
  | Error e =>
      UserState.mk (UserState.users s) (UserState.loading s) e (UserState.selectedUser s)
  | SelectedUser u =>
      UserState.mk (UserState.users s) (UserState.loading s) (UserState.error s) u
  end.

(** [set(partial)] merges the keys of [partial] into the state and leaves
    the other keys as they are. *)
Definition merge (s : UserState.t) (partial : list assignment) : UserState.t :=
  fold_left assign partial s.

(** The calls of the service a thunk awaits, by the type of their result. *)
Inductive call : Type -> Type :=
| ListCall : call (list User.t)
| CreateCall (userData : jsval) : call User.t
| UpdateCall (id : jstring) (userData : jsval) : call User.t
| DeleteCall (id : jstring) : call unit
| GetByIdCall (id : jstring) : call User.t.

Definition perform (api : Axios.instance) {A} (c : call A) : completion A :=
  match c with
  | ListCall => userService.list api
  | CreateCall userData => userService.create api userData
  | UpdateCall id userData => userService.update api id userData
  | DeleteCall id => userService.delete api id
  | GetByIdCall id => userService.getById api id
  end.

(** The body of an [async] action: [set] with an object, [set] with a
    function of the current state, and [await] of a call of the service,
    after which the body goes on with the value or, in its [catch], with
    what was thrown. *)
Inductive thunk : Type :=
| Done
| SetObject (partial : list assignment) (next : thunk)
| SetFunction (f : UserState.t -> list assignment) (next : thunk)
| Await {A : Type} (c : call A) (next : completion A -> thunk).

(** The body run to its end, the server answering as [api] says. *)
Fixpoint run (api : Axios.instance) (body : thunk) (s : UserState.t) : UserState.t :=
  match body with
  | Done => s
  | SetObject partial next => run api next (merge s partial)
  | SetFunction f next => run api next (merge s (f s))
  | Await c next => run api (next (perform api c)) s
  end.

(** The body run up to its first [await]: the state a reader finds when
    the call of the action returns its promise, and what is left to run. *)
Fixpoint untilAwait (body : thunk) (s : UserState.t) : UserState.t * thunk :=
  match body with
  | Done => (s, Done)
  | SetObject partial next => untilAwait next (merge s partial)
  | SetFunction f next => untilAwait next (merge s (f s))
  | Await c next => (s, Await c next)
  end.

Definition suspended (body : thunk) : bool :=
  match body with
  | Await _ _ => true
  | _ => false
  end.

(** [user.id === id] *)
Definition hasId (id : jstring) (user : User.t) : bool :=
  bool_decide (User.id user = id).

Module useUserStore.

Definition initial : UserState.t :=
  UserState.mk [] false None None.

Definition setUsers (users : list User.t) : thunk := SetObject [Users users] Done.
Definition setLoading (loading : bool) : thunk := SetObject [Loading loading] Done.
Definition setError (error : option jsmessage) : thunk := SetObject [Error error] Done.
Definition setSelectedUser (user : option User.t) : thunk :=
  SetObject [SelectedUser user] Done.

(** The [catch] of every action. *)
Definition catch (e : thrown) (fallback : string) : thunk :=
  SetObject [Error (Some (errorText e fallback)); Loading false] Done.

Definition fetchUsers : thunk :=
  SetObject [Loading true; Error None]
 (Await ListCall (fun r =>
    match r with
    | Return users => SetObject [Users users; Loading false] Done
    | Throw e => catch e "Erro ao carregar usuários"
    end)).

Definition createUser (userData : jsval) : thunk :=
  SetObject [Loading true; Error None]
 (Await (CreateCall userData) (fun r =>
    match r with
    | Return newUser =>
        SetFunction (fun state =>
          [Users (UserState.users state ++ [newUser]); Loading false]) Done
    | Throw e => catch e "Erro ao criar usuário"
    end)).

Definition updateUser (id : jstring) (userData : jsval) : thunk :=
  SetObject [Loading true; Error None]
 (Await (UpdateCall id userData) (fun r =>
    match r with
    | Return updatedUser =>
        SetFunction (fun state =>
          [Users (map (fun user => if hasId id user then updatedUser else user)
                      (UserState.users state));
           Loading false]) Done
    | Throw e => catch e "Erro ao atualizar usuário"
    end)).

Definition deleteUser (id : jstring) : thunk :=
  SetObject [Loading true; Error None]
 (Await (DeleteCall id) (fun r =>
    match r with
    | Return _ =>
        SetFunction (fun state =>
          [Users (List.filter (fun user => negb (hasId id user)) (UserState.users state));
           Loading false]) Done
    | Throw e => catch e "Erro ao deletar usuário"
    end)).

Definition fetchUserById (id : jstring) : thunk :=
  SetObject [Loading true; Error None]
 (Await (GetByIdCall id) (fun r =>
    match r with
    | Return user => SetObject [SelectedUser (Some user); Loading false] Done
    | Throw e => catch e "Erro ao carregar usuário"
    end)).

End useUserStore.

(** The five actions that call the service. *)
Inductive action : Type :=
| FetchUsers
| CreateUser (userData : jsval)
| UpdateUser (id : jstring) (userData : jsval)
| DeleteUser (id : jstring)
| FetchUserById (id : jstring).

Definition body (a : action) : thunk :=
  match a with
  | FetchUsers => useUserStore.fetchUsers
  | CreateUser userData => useUserStore.createUser userData
  | UpdateUser id userData => useUserStore.updateUser id userData
  | DeleteUser id => useUserStore.deleteUser id
  | FetchUserById id => useUserStore.fetchUserById id
  end.

(** What the service throws for the action, if it throws. *)
Definition thrownBy {A} (r : completion A) : option thrown :=
  match r with
  | Return _ => None
  | Throw e => Some e
  end.

Definition failure (api : Axios.instance) (a : action) : option thrown :=
  match a with
  | FetchUsers => thrownBy (userService.list api)
  | CreateUser userData => thrownBy (userService.create api userData)
  | UpdateUser id userData => thrownBy (userService.update api id userData)
  | DeleteUser id => thrownBy (userService.delete api id)
  | FetchUserById id => thrownBy (userService.getById api id)
  end.

Definition fallbackText (a : action) : string :=
  match a with
  | FetchUsers => "Erro ao carregar usuários"
  | CreateUser _ => "Erro ao criar usuário"
  | UpdateUser _ _ => "Erro ao atualizar usuário"
  | DeleteUser _ => "Erro ao deletar usuário"
  | FetchUserById _ => "Erro ao carregar usuário"
  end.

(** An action invoked and run to its end with nothing in between. *)
Definition dispatch (api : Axios.instance) (a : action) (s : UserState.t) : UserState.t :=
  run api (body a) s.

(** ** Data for the examples *)

Definition idAna : jstring := js "123e4567-e89b-12d3-a456-426614174000".
Definition idBia : jstring := js "9b2f1c3e-7a5d-4e8f-b1a2-0c3d4e5f6a7b".

(** A user as the server sends it. *)
Definition userJson (id : jstring) (name : string) : jsval :=
  JObject [("id", JString id);
           ("name", JString (js name));
           ("email", JString (js "ana@example.com"));
           ("created_at", JString (js "2024-01-01T00:00:00Z"));
           ("updated_at", JString (js "2024-01-02T08:30:00.250Z"));
           ("deleted_at", JNull);
           ("is_active", JBool true)].

(** The same user once validated. *)
Definition userOf (id : jstring) (name : string) : User.t :=
  User.mk id (js name) (js "ana@example.com")
    (js "2024-01-01T00:00:00Z") (js "2024-01-02T08:30:00.250Z") None true.

Definition ana : User.t := userOf idAna "Ana".
Definition anaRenamed : User.t := userOf idAna "Ana Maria".
Definition bia : User.t := userOf idBia "Bia".

(** A server that answers every request with a success and the body [data]. *)
Definition answering (data : jsval) : Axios.instance :=
  Axios.mkInstance
    (fun _ => Axios.Fulfilled data) (fun _ _ => Axios.Fulfilled data)
    (fun _ _ => Axios.Fulfilled data) (fun _ => Axios.Fulfilled data).

(** A server that refuses every request with the status [code]; the
    message is the one axios gives to such an answer. *)
Definition refusing (code : Z) : Axios.instance :=
  let e := Axios.mkError ("Request failed with status code " ++ pretty code)%string
             (Some code) in
  Axios.mkInstance
    (fun _ => Axios.Rejected e) (fun _ _ => Axios.Rejected e)
    (fun _ _ => Axios.Rejected e) (fun _ => Axios.Rejected e).

(** No network: no request gets a response. *)
Definition offline : Axios.instance :=
  let e := Axios.mkError "Network Error" None in
  Axios.mkInstance
    (fun _ => Axios.Rejected e) (fun _ _ => Axios.Rejected e)
    (fun _ _ => Axios.Rejected e) (fun _ => Axios.Rejected e).

Definition newName (name : string) : jsval := JObject [("name", JString (js name))].

Definition createInput (name email password : jstring) : jsval :=
  JObject [("name", JString name); ("email", JString email);
           ("password", JString password)].

(** The collection holds no identifier twice. *)
Definition uniqueIds (s : UserState.t) : Prop :=
  NoDup (map User.id (UserState.users s)).

(** Several actions, each invoked when the one before it has ended, each
    with the answers the server gives at that time. *)
Fixpoint dispatchAll (steps : list (Axios.instance * action)) (s : UserState.t)
    : UserState.t :=
  match steps with
  | [] => s
  | (api, a) :: rest => dispatchAll rest (dispatch api a s)
  end.

(** What the answer of the service to the action [a], invoked in the state
    [s], keeps of the identifiers: a list holds none twice, a created user
    has an identifier the collection does not hold, and an updated user has
    the identifier that was asked for. *)
Definition keepsIdsApart (api : Axios.instance) (a : action) (s : UserState.t) : Prop :=
  match a with
  | FetchUsers =>
      match userService.list api with
      | Return users => NoDup (map User.id users)
      | Throw _ => True
      end
  | CreateUser userData =>
      match userService.create api userData with
      | Return newUser => User.id newUser ∉ map User.id (UserState.users s)
      | Throw _ => True
      end
  | UpdateUser id userData =>
      match userService.update api id userData with
      | Return updatedUser => User.id updatedUser = id
      | Throw _ => True
      end
  | DeleteUser _ | FetchUserById _ => True
  end.

Fixpoint allKeepIdsApart (steps : list (Axios.instance * action)) (s : UserState.t)
    : Prop :=
  match steps with
  | [] => True
  | (api, a) :: rest => keepsIdsApart api a s /\ allKeepIdsApart rest (dispatch api a s)
  end.

(** Whether [safeParse] succeeds. *)
Definition accepts {A} (s : schema A) (data : jsval) : bool :=
  match safeParse s data with
  | Valid _ => true
  | Invalid _ => false
  end.

(** The string up to its first line terminator. *)
Fixpoint firstLine (s : jstring) : jstring :=
  match s with
  | [] => []
  | c :: rest => if lineTerminator c then [] else c :: firstLine rest
  end.

(** A password of two lines: lower case letters, a line feed, upper case
    letters and a digit. *)
Definition twoLinePassword : jstring := js "abc" ++ [10%N] ++ js "ABC1".

(** The rules of [createUserSchema], in the order of its keys and of the
    checks of each key: the key, the code and the message of the issue, and
    what the rule asks of the string. *)
Record rule : Type := mkRule {
  ruleKey : string;
  ruleCode : issueCode;
  ruleMessage : string;
  holds : jstring -> bool
}.






(** [safeParse] never fails without an issue. *)
Definition proper {A} (r : validation A) : Prop :=
  match r with
  | Invalid [] => False
  | _ => True
  end.


(** ** Further definitions: what the schemas let through *)

(** A user as JSON, key by key; [deleted_at] is [null] when absent. *)
Definition userBody (u : User.t) : jsval :=
  JObject [("id", JString (User.id u));
           ("name", JString (User.name u));
           ("email", JString (User.email u));
           ("created_at", JString (User.created_at u));
           ("updated_at", JString (User.updated_at u));
           ("deleted_at", match User.deleted_at u with
                          | Some s => JString s
                          | None => JNull
                          end);
           ("is_active", JBool (User.is_active u))].

(** The formats [userResponseSchema] asks of the strings of a user. *)
Definition wellFormedUser (u : User.t) : Prop :=
  matches uuidRegex (User.id u) = true
  /\ matches emailRegex (User.email u) = true
  /\ matches datetimeRegex (User.created_at u) = true
  /\ matches datetimeRegex (User.updated_at u) = true
  /\ (forall s, User.deleted_at u = Some s -> matches datetimeRegex s = true).

(** The object [data] holds the values of the user [u] under the keys of
    the schema (and maybe other keys). *)
Definition holdsUser (data : jsval) (u : User.t) : Prop :=
  exists props,
    data = JObject props
    /\ getOwn "id" props = JString (User.id u)
    /\ getOwn "name" props = JString (User.name u)
    /\ getOwn "email" props = JString (User.email u)
    /\ getOwn "created_at" props = JString (User.created_at u)
    /\ getOwn "updated_at" props = JString (User.updated_at u)
    /\ getOwn "deleted_at" props
         = match User.deleted_at u with Some s => JString s | None => JNull end
    /\ getOwn "is_active" props = JBool (User.is_active u).

(** Every user the store holds, in the collection or selected, is well
    formed. *)
Definition holdsWellFormedUsers (s : UserState.t) : Prop :=
  Forall wellFormedUser (UserState.users s)
  /\ (forall u, UserState.selectedUser s = Some u -> wellFormedUser u).

(** The rules of the three keys of [createUserSchema], on a string. *)
Definition nameRule (s : jstring) : Prop := 1 <= length s <= 255.
Definition emailRule (s : jstring) : Prop := matches emailRegex s = true.
Definition passwordRule (s : jstring) : Prop :=
  6 <= length s /\ matches passwordRegex s = true.

(** A key of [updateUserSchema]: absent and left out, or a string that
    keeps the rule of the key. *)
Definition optionalField (v : jsval) (o : option jstring) (rule : jstring -> Prop) : Prop :=
  (v = JUndefined /\ o = None)
  \/ (exists s, v = JString s /\ o = Some s /\ rule s).

(** The issues of a result, none when it is valid. *)
Definition issuesFound {A} (r : validation A) : list ZodIssue :=
  match r with
  | Valid _ => []
  | Invalid issues => issues
  end.

(** ** Further definitions: actions that overlap *)

(** Two actions invoked one right after the other, each run up to its
    [await]; then the promise of the first settles, while the second is
    still waiting. *)
Definition firstSettled (api1 : Axios.instance) (a1 a2 : action) (s : UserState.t)
    : UserState.t :=
  let invoked1 := untilAwait (body a1) s in
  let invoked2 := untilAwait (body a2) (fst invoked1) in
  run api1 (snd invoked1) (fst invoked2).

(** ... and then the promise of the second settles. *)
Definition settledInOrder (api1 api2 : Axios.instance) (a1 a2 : action) (s : UserState.t)
    : UserState.t :=
  let invoked1 := untilAwait (body a1) s in
  let invoked2 := untilAwait (body a2) (fst invoked1) in
  run api2 (snd invoked2) (run api1 (snd invoked1) (fst invoked2)).

(** The same two invocations, the promise of the second settling before
    that of the first. *)
Definition settledInReverse (api1 api2 : Axios.instance) (a1 a2 : action) (s : UserState.t)
    : UserState.t :=
  let invoked1 := untilAwait (body a1) s in
  let invoked2 := untilAwait (body a2) (fst invoked1) in
  run api1 (snd invoked1) (run api2 (snd invoked2) (fst invoked2)).

(** ** UserFormScreen.tsx: the handler of the form *)

(** What the user sees of a handler: an alert, or the screen going back. *)
Inductive uiEffect : Type :=
| AlertShown (title message : string)
| WentBack.

(** Code that reads and writes the state of the store, shows things to the
    user, and returns or throws: the body of an [async] function, with the
    promise it settles to. *)
Module Async.

Definition world : Type := UserState.t * list uiEffect.

Definition M (A : Type) : Type := world -> world * completion A.

Definition ret {A} (a : A) : M A := fun w => (w, Return a).

(** One statement after the other: what the first throws ends the block. *)
Definition bind {A B} (m : M A) (k : A -> M B) : M B :=
  fun w =>
    match m w with
    | (w', Return a) => k a w'
    | (w', Throw e) => (w', Throw e)
    end.

(** [try { body } catch (error) { handler }] *)
Definition tryCatch {A} (body : M A) (handler : thrown -> M A) : M A :=
  fun w =>
    match body w with
    | (w', Throw e) => handler e w'
    | (w', Return a) => (w', Return a)
    end.

(** zustand's [set], with a function of the current state. *)
Definition setState (f : UserState.t -> list assignment) : M unit :=
  fun w => ((merge (fst w) (f (fst w)), snd w), Return tt).

(** [await] on the promise of a call of the service. *)
Definition await {A} (promise : completion A) : M A := fun w => (w, promise).

(** [Alert.alert] and [navigation.goBack]. *)
Definition show (effect : uiEffect) : M unit :=
  fun w => ((fst w, snd w ++ [effect]), Return tt).

End Async.

#[global] Instance async_ret : MRet Async.M := @Async.ret.
#[global] Instance async_bind : MBind Async.M := fun A B k m => Async.bind m k.

(** The two actions the form awaits, written as the [async] functions they
    are: the whole body in a [try], the [catch] writing the error. *)
Module asyncStore.

Definition createUser (api : Axios.instance) (userData : jsval) : Async.M unit :=
  Async.tryCatch
    (Async.setState (fun _ => [Loading true; Error None]);;
     newUser ← Async.await (userService.create api userData);
     Async.setState (fun state =>
       [Users (UserState.users state ++ [newUser]); Loading false]))
    (fun error =>
       Async.setState (fun _ =>
         [Error (Some (errorText error "Erro ao criar usuário")); Loading false])).

Definition updateUser (api : Axios.instance) (id : jstring) (userData : jsval)
    : Async.M unit :=
  Async.tryCatch
    (Async.setState (fun _ => [Loading true; Error None]);;
     updatedUser ← Async.await (userService.update api id userData);
     Async.setState (fun state =>
       [Users (map (fun user => if hasId id user then updatedUser else user)
                   (UserState.users state));
        Loading false]))
    (fun error =>
       Async.setState (fun _ =>
         [Error (Some (errorText error "Erro ao atualizar usuário")); Loading false])).

End asyncStore.

(** A string in a condition: true unless empty. *)
Definition truthy (s : jstring) : bool :=
  match s with
  | [] => false
  | _ :: _ => true
  end.

Module UserFormScreen.

Definition userId : jstring := js "233".

Definition handleSubmit (api : Axios.instance) (data : jsval) : Async.M unit :=
  Async.tryCatch
    ((if truthy userId
      then asyncStore.updateUser api userId data;;
           Async.show (AlertShown "Sucesso" "Usuário atualizado com sucesso!")
      else asyncStore.createUser api data;;
           Async.show (AlertShown "Sucesso" "Usuário criado com sucesso!"));;
     Async.show WentBack)
    (fun _ => Async.show (AlertShown "Erro" "Ocorreu um erro ao salvar o usuário.")).

End UserFormScreen.

(** The kinds of failure the specification tells apart (its sections 6 and
    7): an input refused by its schema, an identifier not found (status
    404), a request without a response, any other refusal of the server,
    and a response refused by its schema. *)
Inductive failureKind : Type :=
| ValidationKind
| NotFoundKind
| NetworkKind
| ServerKind
| MalformedResponseKind.

Definition rejectionKind (e : Axios.error) : failureKind :=
  match Axios.status e with
  | Some 404%Z => NotFoundKind
  | Some _ => ServerKind
  | None => NetworkKind
  end.

Definition answerKind (accepted : jsval -> bool) (r : Axios.settled) : option failureKind :=
  match r with
  | Axios.Rejected e => Some (rejectionKind e)
  | Axios.Fulfilled body => if accepted body then None else Some MalformedResponseKind
  end.

(** The kind of the failure of an action by that taxonomy, none when the
    call of the service returns. *)
Definition specKind (api : Axios.instance) (a : action) : option failureKind :=
  match a with
  | FetchUsers =>
      answerKind (accepts (zarray userResponseSchema)) (Axios.get api (js "/users"))
  | CreateUser userData =>
      match safeParse createUserSchema userData with
      | Invalid _ => Some ValidationKind
      | Valid validatedData =>
          answerKind (accepts userResponseSchema)
            (Axios.post api (js "/users") (createBody validatedData))
      end
  | UpdateUser id userData =>
      match safeParse updateUserSchema userData with
      | Invalid _ => Some ValidationKind
      | Valid validatedData =>
          answerKind (accepts userResponseSchema)
            (Axios.put api (js "/users/" ++ id) (updateBody validatedData))
      end
  | DeleteUser id =>
      answerKind (fun _ => true) (Axios.delete api (js "/users/" ++ id))
  | FetchUserById id =>
      answerKind (accepts userResponseSchema) (Axios.get api (js "/users/" ++ id))
  end.


(** * Properties *)

(** ** The store: what each action leaves behind *)

Section Store.

Variable api : Axios.instance.

Lemma dispatch_fetchUsers_ok s users :
  userService.list api = Return users ->
  dispatch api FetchUsers s =
    UserState.mk users false None (UserState.selectedUser s).
Proof. intros H. unfold dispatch. cbn. rewrite H. reflexivity. Qed.

Lemma dispatch_createUser_ok s userData newUser :
  userService.create api userData = Return newUser ->
  dispatch api (CreateUser userData) s =
    UserState.mk (UserState.users s ++ [newUser]) false None (UserState.selectedUser s).
Proof. intros H. unfold dispatch. cbn. rewrite H. reflexivity. Qed.

Lemma dispatch_updateUser_ok s id userData updatedUser :
  userService.update api id userData = Return updatedUser ->
  dispatch api (UpdateUser id userData) s =
    UserState.mk
      (map (fun user => if hasId id user then updatedUser else user) (UserState.users s))
      false None (UserState.selectedUser s).
Proof. intros H. unfold dispatch. cbn. rewrite H. reflexivity. Qed.

Lemma dispatch_deleteUser_ok s id :
  userService.delete api id = Return tt ->
  dispatch api (DeleteUser id) s =
    UserState.mk
      (List.filter (fun user => negb (hasId id user)) (UserState.users s))
      false None (UserState.selectedUser s).
Proof. intros H. unfold dispatch. cbn. rewrite H. reflexivity. Qed.

Lemma dispatch_fetchUserById_ok s id user :
  userService.getById api id = Return user ->
  dispatch api (FetchUserById id) s =
    UserState.mk (UserState.users s) false None (Some user).
Proof. intros H. unfold dispatch. cbn. rewrite H. reflexivity. Qed.

Lemma dispatch_failure s a e :
  failure api a = Some e ->
  dispatch api a s =
    UserState.mk (UserState.users s) false (Some (errorText e (fallbackText a)))
      (UserState.selectedUser s).
Proof.
  unfold dispatch.
  destruct a; cbn;
    match goal with
    | |- thrownBy ?call = _ -> _ => destruct call; cbn
    end;
    intros [= <-]; reflexivity.
Qed.

End Store.

(** Running a body to its end is running it to its first [await] and
    going on from there. *)
Lemma run_from_first_await api body : forall s,
  run api body s = run api (snd (untilAwait body s)) (fst (untilAwait body s)).
Proof. induction body; intros s; cbn; auto. Qed.

(** A failing action that went on only after other writes to the state
    (the state is [s'] when its promise is rejected) still ends with its
    error set and [loading] false, and keeps the data it finds. *)
Lemma failing_action_after_other_writes api a s s' e :
  failure api a = Some e ->
  run api (snd (untilAwait (body a) s)) s' =
    UserState.mk (UserState.users s') false (Some (errorText e (fallbackText a)))
      (UserState.selectedUser s').
Proof.
  destruct a; cbn;
    match goal with
    | |- thrownBy ?call = _ -> _ => destruct call; cbn
    end;
    intros [= <-]; reflexivity.
Qed.

(** ** update *)

(** C1, as the code has it: after a successful [updateUser(id, userData)]
    the collection has the same length and order; every element whose
    identifier is [id] is the user the service returned and every other
    element is as before; and when no element has the identifier [id] the
    collection is left as it was (nothing is appended). *)
Theorem updateUser_replaces_in_place api id userData updatedUser s :
  userService.update api id userData = Return updatedUser ->
  length (UserState.users (dispatch api (UpdateUser id userData) s))
    = length (UserState.users s)
  /\ (forall i user,
        UserState.users s !! i = Some user ->
        UserState.users (dispatch api (UpdateUser id userData) s) !! i
          = Some (if hasId id user then updatedUser else user))
  /\ ((forall user, user ∈ UserState.users s -> User.id user <> id) ->
      UserState.users (dispatch api (UpdateUser id userData) s) = UserState.users s).
Proof.
  intros Hok. rewrite (dispatch_updateUser_ok _ _ _ _ _ Hok). cbn.
  split; [apply length_map|]. split.
  - intros i user Hi. rewrite list_lookup_fmap, Hi. reflexivity.
  - intros Hnone. induction (UserState.users s) as [|user rest IH]; [reflexivity|].
    cbn. unfold hasId at 1. rewrite bool_decide_eq_false_2.
    + f_equal. apply IH. intros u Hu. apply Hnone. now right.
    + apply Hnone. now left.
Qed.

Lemma updateUser_replaces_in_place_witness :
  length (UserState.users
            (dispatch (answering (userJson idAna "Ana Maria"))
               (UpdateUser idAna (newName "Ana Maria"))
               (UserState.mk [ana; bia] false None None))) = 2
  /\ UserState.users
       (dispatch (answering (userJson idAna "Ana Maria"))
          (UpdateUser idAna (newName "Ana Maria"))
          (UserState.mk [ana; bia] false None None)) !! 0 = Some anaRenamed.
Proof.
  destruct (updateUser_replaces_in_place
              (answering (userJson idAna "Ana Maria")) idAna (newName "Ana Maria")
              anaRenamed (UserState.mk [ana; bia] false None None) eq_refl)
    as (Hlen & Hat & _).
  split; [exact Hlen | exact (Hat 0 ana eq_refl)].
Defined.

(** C1 as stated fails: the update of an identifier the collection does
    not hold succeeds on the server, and the returned user is not appended. *)
Lemma updateUser_does_not_append :
  userService.update (answering (userJson idAna "Ana")) idAna (newName "Ana") = Return ana
  /\ UserState.users
       (dispatch (answering (userJson idAna "Ana")) (UpdateUser idAna (newName "Ana"))
          (UserState.mk [bia] false None None)) = [bia]
  /\ UserState.users
       (dispatch (answering (userJson idAna "Ana")) (UpdateUser idAna (newName "Ana"))
          (UserState.mk [bia] false None None)) <> [bia; ana].
Proof. split; [|split]; [vm_compute; reflexivity .. | vm_compute; discriminate]. Qed.

(** C7, as the code has it: a successful [updateUser] leaves [selectedUser]
    as it was, also when the selected user has the identifier updated. *)
Theorem updateUser_keeps_selectedUser api id userData updatedUser s :
  userService.update api id userData = Return updatedUser ->
  UserState.selectedUser (dispatch api (UpdateUser id userData) s)
    = UserState.selectedUser s.
Proof. intros Hok. rewrite (dispatch_updateUser_ok _ _ _ _ _ Hok). reflexivity. Qed.

Lemma updateUser_keeps_selectedUser_witness :
  UserState.selectedUser
    (dispatch (answering (userJson idAna "Ana Maria")) (UpdateUser idAna (newName "Ana Maria"))
       (UserState.mk [ana; bia] false None (Some bia))) = Some bia.
Proof.
  exact (updateUser_keeps_selectedUser
           (answering (userJson idAna "Ana Maria")) idAna (newName "Ana Maria")
           anaRenamed (UserState.mk [ana; bia] false None (Some bia)) eq_refl).
Defined.

(** C7 as stated fails: the selected user has the identifier updated, the
    collection gets the returned user, and the selection keeps the old one. *)
Lemma updateUser_leaves_selection_stale :
  userService.update (answering (userJson idAna "Ana Maria")) idAna (newName "Ana Maria")
    = Return anaRenamed
  /\ User.id ana = idAna
  /\ dispatch (answering (userJson idAna "Ana Maria")) (UpdateUser idAna (newName "Ana Maria"))
       (UserState.mk [ana] false None (Some ana))
     = UserState.mk [anaRenamed] false None (Some ana)
  /\ Some ana <> Some anaRenamed.
Proof.
  split; [|split; [|split]]; [vm_compute; reflexivity .. | vm_compute; discriminate].
Qed.

(** ** delete *)

(** C2, as the code has it: after a successful [deleteUser(id)] the
    collection is the old one without the elements whose identifier is
    [id], the others in their order, and [selectedUser] is left as it was. *)
Theorem deleteUser_removes_from_collection api id s :
  userService.delete api id = Return tt ->
  UserState.users (dispatch api (DeleteUser id) s)
    = List.filter (fun user => negb (hasId id user)) (UserState.users s)
  /\ (forall user,
        user ∈ UserState.users (dispatch api (DeleteUser id) s) <->
        user ∈ UserState.users s /\ User.id user <> id)
  /\ UserState.selectedUser (dispatch api (DeleteUser id) s) = UserState.selectedUser s.
Proof.
  intros Hok. rewrite (dispatch_deleteUser_ok _ _ _ Hok). cbn.
  split; [reflexivity|]. split; [|reflexivity].
  intros user. rewrite !list_elem_of_In, filter_In. unfold hasId.
  rewrite negb_true_iff, bool_decide_eq_false. reflexivity.
Qed.

Lemma deleteUser_removes_from_collection_witness :
  UserState.users
    (dispatch (answering JNull) (DeleteUser idAna) (UserState.mk [ana; bia] false None None))
    = [bia].
Proof.
  exact (proj1 (deleteUser_removes_from_collection (answering JNull) idAna
                  (UserState.mk [ana; bia] false None None) eq_refl)).
Defined.

(** C2 as stated fails: the selected user is the one deleted, and stays
    selected. *)
Lemma deleteUser_keeps_selection :
  userService.delete (answering JNull) idAna = Return tt
  /\ User.id ana = idAna
  /\ dispatch (answering JNull) (DeleteUser idAna) (UserState.mk [ana; bia] false None (Some ana))
     = UserState.mk [bia] false None (Some ana)
  /\ Some ana <> @None User.t.
Proof. split; [|split; [|split]]; [vm_compute; reflexivity .. | discriminate]. Qed.

(** C10: [userService.delete] hands back nothing of the response: any body
    sent with a success is dropped, a refused request is the error of axios,
    and no answer of the server makes it throw a [ZodError]. *)
Theorem delete_discards_response_body api id :
  userService.delete api id =
    match Axios.delete api (js "/users/" ++ id) with
    | Axios.Fulfilled _ => Return tt
    | Axios.Rejected e => Throw (AxiosError e)
    end
  /\ forall issues, userService.delete api id <> Throw (ZodError issues).
Proof.
  unfold userService.delete.
  destruct (Axios.delete api (js "/users/" ++ id)); cbn;
    (split; [reflexivity | intros issues; discriminate]).
Qed.

(** ** Failure *)

Lemma parse_throws_ZodError {A} (s : schema A) data e :
  parse s data = Throw e -> exists issues, e = ZodError issues.
Proof. unfold parse. destruct (safeParse s data); [discriminate | intros [= <-]; eauto]. Qed.

Lemma awaitRequest_throws_AxiosError r e :
  awaitRequest r = Throw e -> exists err, e = AxiosError err.
Proof. destruct r; cbn; [discriminate | intros [= <-]; eauto]. Qed.

Lemma bind_throws {A B} (m : completion A) (k : A -> completion B) e :
  m ≫= k = Throw e -> m = Throw e \/ exists a, m = Return a /\ k a = Throw e.
Proof. destruct m as [a|e']; cbn; [intros H; right; eauto | intros [= <-]; auto]. Qed.

(** The service throws a [ZodError] or the error of axios, nothing else. *)
Lemma service_throws_an_Error api a e :
  failure api a = Some e ->
  (exists issues, e = ZodError issues) \/ (exists err, e = AxiosError err).
Proof.
  assert (Hthrown : forall A (c : completion A), thrownBy c = Some e -> c = Throw e).
  { intros A [x|e']; cbn; [discriminate | intros [= <-]; reflexivity]. }
  destruct a; cbn -[js app]; intros H; apply Hthrown in H;
    unfold userService.list, userService.create, userService.update,
      userService.delete, userService.getById in H;
    repeat match goal with
      | H : _ ≫= _ = Throw _ |- _ => apply bind_throws in H as [H | (? & _ & H)]
      | H : parse _ _ = Throw _ |- _ => left; exact (parse_throws_ZodError _ _ _ H)
      | H : awaitRequest _ = Throw _ |- _ => right; exact (awaitRequest_throws_AxiosError _ _ H)
      | H : Return _ = Throw _ |- _ => discriminate H
      | H : mret _ = Throw _ |- _ => discriminate H
      end.
Qed.

(** The kinds of the specification are given to exactly the actions whose
    call of the service throws. *)
Lemma specKind_of_failures api a : specKind api a = None <-> failure api a = None.
Proof.
  destruct a as [|userData|id userData|id|id]; cbn -[js app safeParse];
    unfold userService.list, userService.create, userService.update,
      userService.delete, userService.getById, parse, accepts, answerKind.
  - destruct (Axios.get api (js "/users")) as [body|err]; cbn -[safeParse];
      [destruct (safeParse (zarray userResponseSchema) body)|]; cbn; split; congruence.
  - destruct (safeParse createUserSchema userData) as [d|issues]; cbn -[js safeParse];
      [|split; congruence].
    destruct (Axios.post api (js "/users") (createBody d)) as [body|err]; cbn -[safeParse];
      [destruct (safeParse userResponseSchema body)|]; cbn; split; congruence.
  - destruct (safeParse updateUserSchema userData) as [d|issues]; cbn -[js app safeParse];
      [|split; congruence].
    destruct (Axios.put api (js "/users/" ++ id) (updateBody d)) as [body|err];
      cbn -[safeParse]; [destruct (safeParse userResponseSchema body)|]; cbn; split; congruence.
  - destruct (Axios.delete api (js "/users/" ++ id)) as [body|err]; cbn; split; congruence.
  - destruct (Axios.get api (js "/users/" ++ id)) as [body|err]; cbn -[safeParse];
      [destruct (safeParse userResponseSchema body)|]; cbn; split; congruence.
Qed.

(** C3, as the code has it: an action whose call of the service throws ends
    with [error] set to the message of what was thrown, a text and nothing
    more (the JSON text of the issues of a [ZodError], the message of the
    error of axios; the service throws nothing else), [loading] false, and
    [users] and [selectedUser] as they were. *)
Theorem failing_action_keeps_data api a s e :
  failure api a = Some e ->
  ((exists issues,
      e = ZodError issues
      /\ UserState.error (dispatch api a s) = Some (IssuesJson issues))
   \/ (exists err,
         e = AxiosError err
         /\ UserState.error (dispatch api a s) = Some (Text (Axios.errorMessage err))))
  /\ UserState.loading (dispatch api a s) = false
  /\ UserState.users (dispatch api a s) = UserState.users s
  /\ UserState.selectedUser (dispatch api a s) = UserState.selectedUser s.
Proof.
  intros Hfail. rewrite (dispatch_failure _ _ _ _ Hfail). cbn.
  split; [|auto].
  destruct (service_throws_an_Error _ _ _ Hfail) as [(issues & ->) | (err & ->)];
    [left | right]; eauto.
Qed.

Lemma failing_action_keeps_data_witness :
  UserState.error (dispatch (refusing 404) (UpdateUser idAna (newName "Ana Maria"))
                     (UserState.mk [ana; bia] false None (Some ana)))
    = Some (Text "Request failed with status code 404")
  /\ UserState.loading (dispatch (refusing 404) (UpdateUser idAna (newName "Ana Maria"))
                          (UserState.mk [ana; bia] false None (Some ana))) = false
  /\ UserState.users (dispatch (refusing 404) (UpdateUser idAna (newName "Ana Maria"))
                        (UserState.mk [ana; bia] false None (Some ana))) = [ana; bia]
  /\ UserState.selectedUser (dispatch (refusing 404) (UpdateUser idAna (newName "Ana Maria"))
                               (UserState.mk [ana; bia] false None (Some ana))) = Some ana.
Proof.
  destruct (failing_action_keeps_data (refusing 404) (UpdateUser idAna (newName "Ana Maria"))
              (UserState.mk [ana; bia] false None (Some ana))
              (AxiosError (Axios.mkError "Request failed with status code 404" (Some 404%Z)))
              eq_refl)
    as [[(issues & Hclass & _) | (err & Hclass & Herror)] Hrest].
  - discriminate Hclass.
  - injection Hclass as <-. split; [exact Herror | exact Hrest].
Defined.

(** C3 as stated fails: [error] holds a text, not an error with a kind and
    the fields at fault. An empty name leaves the JSON text of the issues
    of zod and a status 404 leaves the message of axios; an input refused
    and a response refused, which the specification gives two kinds, can
    leave the very same text, so no kind can be read off what is stored. *)
Lemma stored_error_has_no_kind :
  UserState.error
    (dispatch (answering (userJson idAna "Ana"))
       (CreateUser (createInput [] (js "a@b.com") (js "Abcdef1"))) useUserStore.initial)
    = Some (IssuesJson [mkIssue too_small [Key "name"] "O nome é obrigatório"])
  /\ UserState.error
       (dispatch (refusing 404) (UpdateUser (js "42") (newName "X")) useUserStore.initial)
     = Some (Text "Request failed with status code 404")
  /\ specKind (answering (userJson idAna "Ana")) (UpdateUser idAna JNull)
     = Some ValidationKind
  /\ specKind (answering JNull) (UpdateUser idAna (newName "Ana"))
     = Some MalformedResponseKind
  /\ UserState.error
       (dispatch (answering (userJson idAna "Ana")) (UpdateUser idAna JNull)
          useUserStore.initial)
     = UserState.error
         (dispatch (answering JNull) (UpdateUser idAna (newName "Ana")) useUserStore.initial)
  /\ ~ exists kindOf : jsmessage -> failureKind,
         forall api a s k,
           specKind api a = Some k ->
           option_map kindOf (UserState.error (dispatch api a s)) = Some k.
Proof.
  repeat (split; [vm_compute; reflexivity|]).
  intros (kindOf & Hkind).
  pose proof (Hkind (answering (userJson idAna "Ana")) (UpdateUser idAna JNull)
                useUserStore.initial ValidationKind eq_refl) as H1.
  pose proof (Hkind (answering JNull) (UpdateUser idAna (newName "Ana"))
                useUserStore.initial MalformedResponseKind eq_refl) as H2.
  vm_compute in H1, H2. congruence.
Qed.

(** ** Invocation *)

(** C6: the body of every action, run up to its first [await], has set
    [loading] to true and [error] to null, and is then waiting for the
    service. *)
Theorem action_starts_pending a s :
  UserState.loading (fst (untilAwait (body a) s)) = true
  /\ UserState.error (fst (untilAwait (body a) s)) = None
  /\ suspended (snd (untilAwait (body a) s)) = true.
Proof. destruct a; cbn; auto. Qed.

(** ** Identifiers in the collection *)

Lemma filter_keeps_ids_apart (keep : User.t -> bool) (users : list User.t) :
  NoDup (map User.id users) -> NoDup (map User.id (List.filter keep users)).
Proof.
  induction users as [|user rest IH]; cbn; [auto|].
  rewrite NoDup_cons. intros [Hfresh Hrest].
  destruct (keep user); cbn; [|auto].
  apply NoDup_cons. split; [|auto].
  intros Hin. apply Hfresh.
  apply list_elem_of_fmap in Hin as (u & -> & Hu).
  apply list_elem_of_fmap. exists u. split; [reflexivity|].
  apply list_elem_of_In. apply list_elem_of_In in Hu.
  apply filter_In in Hu. tauto.
Qed.

Lemma replace_keeps_ids (id : jstring) (updatedUser : User.t) (users : list User.t) :
  User.id updatedUser = id ->
  map User.id (map (fun user => if hasId id user then updatedUser else user) users)
    = map User.id users.
Proof.
  intros Hid. induction users as [|user rest IH]; cbn; [reflexivity|].
  rewrite IH. f_equal. unfold hasId. case_bool_decide; congruence.
Qed.

Lemma dispatch_keeps_ids_apart api a s :
  uniqueIds s -> keepsIdsApart api a s -> uniqueIds (dispatch api a s).
Proof.
  unfold uniqueIds. intros Huniq Hkeep.
  destruct a as [|userData|id userData|id|id]; cbn in Hkeep.
  - destruct (userService.list api) as [users|e] eqn:Hcall.
    + rewrite (dispatch_fetchUsers_ok _ _ _ Hcall). exact Hkeep.
    + rewrite (dispatch_failure api s FetchUsers e); [exact Huniq|].
      cbn. rewrite Hcall. reflexivity.
  - destruct (userService.create api userData) as [newUser|e] eqn:Hcall.
    + rewrite (dispatch_createUser_ok _ _ _ _ Hcall). cbn.
      rewrite map_app. apply NoDup_app. split; [exact Huniq|]. split.
      * intros x Hx Hx'. apply list_elem_of_singleton in Hx'. subst x. auto.
      * apply NoDup_singleton.
    + rewrite (dispatch_failure api s (CreateUser userData) e); [exact Huniq|].
      cbn. rewrite Hcall. reflexivity.
  - destruct (userService.update api id userData) as [updatedUser|e] eqn:Hcall.
    + rewrite (dispatch_updateUser_ok _ _ _ _ _ Hcall). cbn.
      rewrite replace_keeps_ids by exact Hkeep. exact Huniq.
    + rewrite (dispatch_failure api s (UpdateUser id userData) e); [exact Huniq|].
      cbn. rewrite Hcall. reflexivity.
  - destruct (userService.delete api id) as [[]|e] eqn:Hcall.
    + rewrite (dispatch_deleteUser_ok _ _ _ Hcall). cbn.
      apply filter_keeps_ids_apart. exact Huniq.
    + rewrite (dispatch_failure api s (DeleteUser id) e); [exact Huniq|].
      cbn. rewrite Hcall. reflexivity.
  - destruct (userService.getById api id) as [user|e] eqn:Hcall.
    + rewrite (dispatch_fetchUserById_ok _ _ _ _ Hcall). exact Huniq.
    + rewrite (dispatch_failure api s (FetchUserById id) e); [exact Huniq|].
      cbn. rewrite Hcall. reflexivity.
Qed.

Lemma dispatchAll_keeps_ids_apart steps : forall s,
  uniqueIds s -> allKeepIdsApart steps s -> uniqueIds (dispatchAll steps s).
Proof.
  induction steps as [|[api a] rest IH]; cbn; intros s Huniq Hall; [exact Huniq|].
  destruct Hall as [Hstep Hrest].
  apply IH; [|exact Hrest]. apply dispatch_keeps_ids_apart; assumption.
Qed.

(** C8, as the code has it: from the empty state, any sequence of actions
    leaves the collection without a repeated identifier as long as the
    answers of the server keep the identifiers apart: the list it sends
    holds none twice, the user it creates has an identifier the collection
    does not hold, and the user it updates has the identifier asked for.
    Deleting, fetching one user and every failing action need no such
    condition. *)
Theorem collection_unique_when_server_keeps_ids_apart steps :
  allKeepIdsApart steps useUserStore.initial ->
  uniqueIds (dispatchAll steps useUserStore.initial).
Proof.
  apply dispatchAll_keeps_ids_apart. unfold uniqueIds. cbn. apply NoDup_nil_2.
Qed.

Lemma collection_unique_witness :
  uniqueIds
    (dispatchAll
       [(answering (JArray [userJson idAna "Ana"; userJson idBia "Bia"]), FetchUsers);
        (answering (userJson idAna "Ana Maria"), UpdateUser idAna (newName "Ana Maria"));
        (answering JNull, DeleteUser idBia)]
       useUserStore.initial).
Proof.
  apply collection_unique_when_server_keeps_ids_apart.
  cbn -[userService.list userService.update].
  split; [|split; [|split]]; try exact I.
  - apply (bool_decide_unpack _). vm_compute. exact I.
  - vm_compute. reflexivity.
Defined.

(** C8 as stated fails: nothing in the store or in the schema of the
    response refuses a list that holds an identifier twice. *)
Lemma fetchUsers_admits_repeated_ids :
  UserState.users
    (dispatch (answering (JArray [userJson idAna "Ana"; userJson idAna "Ana"]))
       FetchUsers useUserStore.initial) = [ana; ana]
  /\ ~ uniqueIds
       (dispatch (answering (JArray [userJson idAna "Ana"; userJson idAna "Ana"]))
          FetchUsers useUserStore.initial).
Proof.
  split; [vm_compute; reflexivity|].
  unfold uniqueIds.
  replace (UserState.users _) with [ana; ana] by (vm_compute; reflexivity).
  cbn. rewrite NoDup_cons. intros [Hnotin _]. apply Hnotin. left.
Qed.

(** ** Patterns: matching by derivatives finds the language *)

Lemma acceptsEmpty_lang r : acceptsEmpty r = true <-> lang r [].
Proof.
  induction r as [| |p|a IHa b IHb|a IHa b IHb|a IHa|a IHa b IHb|a IHa]; cbn.
  - split; [discriminate | tauto].
  - tauto.
  - split; [discriminate | intros (c & Hc & _); discriminate].
  - rewrite andb_true_iff, IHa, IHb. split.
    + intros [Ha Hb]. exists [], []. auto.
    + intros (s1 & s2 & Heq & Ha & Hb).
      symmetry in Heq. apply app_eq_nil in Heq as [-> ->]. auto.
  - rewrite orb_true_iff, IHa, IHb. tauto.
  - split; [intros _; constructor | reflexivity].
  - rewrite andb_true_iff, IHa, IHb. tauto.
  - rewrite negb_true_iff, <- IHa. destruct (acceptsEmpty a); split; auto; congruence.
Qed.

Lemma star_cons_inv (L : jstring -> Prop) c s :
  star L (c :: s) -> exists s1 s2, s = s1 ++ s2 /\ L (c :: s1) /\ star L s2.
Proof.
  intros H. remember (c :: s) as w eqn:Hw. revert c s Hw.
  induction H as [|u t Hu Ht IH]; intros c s Hw; [discriminate|].
  destruct u as [|d u]; cbn in Hw.
  - apply IH. exact Hw.
  - injection Hw as -> <-. exists u, t. auto.
Qed.

Lemma deriv_lang c r : forall s, lang (deriv c r) s <-> lang r (c :: s).
Proof.
  induction r as [| |p|a IHa b IHb|a IHa b IHb|a IHa|a IHa b IHb|a IHa];
    intros s; cbn.
  - tauto.
  - split; [tauto | discriminate].
  - destruct (p c) eqn:Hp; cbn.
    + split; [intros ->; eauto | intros (d & [= <- ->] & _); reflexivity].
    + split; [tauto | intros (d & [= <- ->] & Hd); congruence].
  - assert (Hcat : lang (Cat (deriv c a) b) s <->
                   exists s1 s2, s = s1 ++ s2 /\ lang a (c :: s1) /\ lang b s2).
    { cbn. split; intros (s1 & s2 & Heq & Ha & Hb); exists s1, s2;
        (split; [exact Heq|]); (split; [apply IHa; exact Ha | exact Hb]). }
    destruct (acceptsEmpty a) eqn:Hempty.
    + change (lang (Cat (deriv c a) b) s \/ lang (deriv c b) s <->
              exists s1 s2, c :: s = s1 ++ s2 /\ lang a s1 /\ lang b s2).
      rewrite Hcat, IHb. split.
      * intros [(s1 & s2 & -> & Ha & Hb) | Hb].
        -- exists (c :: s1), s2. auto.
        -- exists [], (c :: s). split; [reflexivity|].
           split; [apply acceptsEmpty_lang; exact Hempty | exact Hb].
      * intros (s1 & s2 & Heq & Ha & Hb). destruct s1 as [|d s1]; cbn in Heq.
        -- right. rewrite Heq. exact Hb.
        -- injection Heq as <- ->. left. eauto.
    + rewrite Hcat. split.
      * intros (s1 & s2 & -> & Ha & Hb). exists (c :: s1), s2. auto.
      * intros (s1 & s2 & Heq & Ha & Hb). destruct s1 as [|d s1]; cbn in Heq.
        -- apply acceptsEmpty_lang in Ha. congruence.
        -- injection Heq as <- ->. eauto.
  - rewrite IHa, IHb. tauto.
  - split.
    + intros (s1 & s2 & -> & Ha & Hs).
      apply (star_app (lang a) (c :: s1) s2); [apply IHa; exact Ha | exact Hs].
    + intros H. apply star_cons_inv in H as (s1 & s2 & -> & Ha & Hs).
      exists s1, s2. split; [reflexivity|]. split; [apply IHa; exact Ha | exact Hs].
  - rewrite IHa, IHb. tauto.
  - rewrite IHa. tauto.
Qed.

Lemma matches_lang s : forall r, matches r s = true <-> lang r s.
Proof.
  induction s as [|c s IH]; intros r; cbn.
  - apply acceptsEmpty_lang.
  - rewrite IH. apply deriv_lang.
Qed.

Lemma matches_And a b s : matches (And a b) s = matches a s && matches b s.
Proof. revert a b. induction s as [|c s IH]; intros a b; cbn; [reflexivity | apply IH]. Qed.

Lemma star_class (q : N -> bool) s :
  lang (Star (Cls q)) s <-> Forall (fun c => q c = true) s.
Proof.
  cbn. split.
  - induction 1 as [|u t (c & -> & Hc) _ IH]; [constructor|].
    cbn. constructor; assumption.
  - induction 1 as [|c s Hc _ IH]; [constructor|].
    apply (star_app _ [c] s); [cbn; eauto | exact IH].
Qed.

(** A lookahead [(?=.*[class])] at the start of a pattern finds a character
    of the class on the first line of the string, and nowhere else. *)
Lemma lookahead_dot_star (p : N -> bool) s :
  (forall c, p c = true -> dot c = true) ->
  matches (lookahead (Cat (Star (Cls dot)) (Cls p))) s = existsb p (firstLine s).
Proof.
  intros Hdot. apply eq_true_iff_eq. rewrite matches_lang.
  transitivity (exists pre c post,
                  s = pre ++ c :: post /\ Forall (fun x => dot x = true) pre /\ p c = true).
  - unfold lookahead. split.
    + intros (s1 & s2 & -> & (pre & s3 & -> & Hpre & (c & -> & Hc)) & _).
      exists pre, c, s2. rewrite <- app_assoc. split; [reflexivity|].
      split; [apply star_class; exact Hpre | exact Hc].
    + intros (pre & c & post & -> & Hpre & Hc).
      exists (pre ++ [c]), post. rewrite <- app_assoc. split; [reflexivity|]. split.
      * exists pre, [c]. split; [reflexivity|].
        split; [apply star_class; exact Hpre | cbn; eauto].
      * apply star_class. apply Forall_forall. reflexivity.
  - induction s as [|x s IH]; cbn.
    + split; [|discriminate]. intros (pre & c & post & Heq & _).
      destruct pre; discriminate.
    + destruct (lineTerminator x) eqn:Hx; cbn.
      * split; [|discriminate]. intros (pre & c & post & Heq & Hpre & Hc).
        destruct pre as [|y pre]; cbn in Heq; injection Heq as <- ->.
        -- apply Hdot in Hc. unfold dot in Hc. rewrite Hx in Hc. discriminate.
        -- apply Forall_cons in Hpre as [Hy _]. unfold dot in Hy.
           rewrite Hx in Hy. discriminate.
      * rewrite orb_true_iff, <- IH. split.
        -- intros (pre & c & post & Heq & Hpre & Hc).
           destruct pre as [|y pre]; cbn in Heq; injection Heq as <- ->.
           ++ left. exact Hc.
           ++ right. apply Forall_cons in Hpre as [_ Hpre]. eauto 6.
        -- intros [Hc | (pre & c & post & -> & Hpre & Hc)].
           ++ exists [], x, s. auto.
           ++ exists (x :: pre), c, post. split; [reflexivity|].
              split; [|exact Hc]. constructor; [|exact Hpre].
              unfold dot. rewrite Hx. reflexivity.
Qed.

Lemma class_on_a_line lo hi c :
  (codeUnit lo <= 127)%N -> (14 <= codeUnit lo)%N -> (codeUnit hi <= 127)%N ->
  range lo hi c = true -> dot c = true.
Proof.
  unfold range, dot, lineTerminator. intros Hlo Hlo' Hhi.
  rewrite andb_true_iff, !N.leb_le. intros [H1 H2].
  rewrite !(proj2 (N.eqb_neq _ _)) by lia. reflexivity.
Qed.

(** The pattern of the password looks for its three classes on the first
    line. *)
Lemma passwordRegex_first_line s :
  matches passwordRegex s =
    existsb lower (firstLine s) && (existsb upper (firstLine s) && existsb digit (firstLine s)).
Proof.
  unfold passwordRegex. rewrite !matches_And.
  rewrite !lookahead_dot_star; [reflexivity | | |];
    intros c; apply class_on_a_line; vm_compute; congruence.
Qed.

Lemma firstLine_of_one_line s :
  Forall (fun c => lineTerminator c = false) s -> firstLine s = s.
Proof.
  induction 1 as [|c s Hc _ IH]; cbn; [reflexivity|]. rewrite Hc, IH. reflexivity.
Qed.

Lemma emailRegex_not_empty s : matches emailRegex s = true -> 1 <= length s.
Proof. destruct s; [vm_compute; discriminate | cbn; lia]. Qed.

(** What [createUserSchema] accepts, for a name, an email and a password
    that are strings. *)
Lemma createUserSchema_accepts name email password :
  accepts createUserSchema (createInput name email password) = true <->
  1 <= length name <= 255
  /\ matches emailRegex email = true
  /\ 6 <= length password
  /\ matches passwordRegex password = true.
Proof.
  pose proof (emailRegex_not_empty email) as Hemail.
  unfold accepts, safeParse, createUserSchema, createInput, zobject, field,
    nameSchema, emailSchema, passwordSchema, zstring.
  cbn -[matches Nat.ltb length emailRegex passwordRegex].
  destruct (Nat.ltb_spec (length name) 1), (Nat.ltb_spec 255 (length name)),
    (matches emailRegex email), (Nat.ltb_spec (length email) 1),
    (Nat.ltb_spec (length password) 6), (matches passwordRegex password);
    cbn; (split; [try discriminate; intros _ | intros (? & ? & ? & ?)]);
    try specialize (Hemail eq_refl); try lia; try discriminate; auto.
Qed.

(** The rule of the password is read on its first line. *)
Lemma createUserSchema_accepts_first_line name email password :
  accepts createUserSchema (createInput name email password) = true <->
  1 <= length name <= 255
  /\ matches emailRegex email = true
  /\ 6 <= length password
  /\ existsb upper (firstLine password) = true
  /\ existsb lower (firstLine password) = true
  /\ existsb digit (firstLine password) = true.
Proof.
  rewrite createUserSchema_accepts, passwordRegex_first_line, !andb_true_iff. tauto.
Qed.

(** For a password of one line the schema accepts exactly what its
    messages say. *)
Lemma createUserSchema_accepts_one_line name email password :
  Forall (fun c => lineTerminator c = false) password ->
  accepts createUserSchema (createInput name email password) = true <->
  1 <= length name <= 255
  /\ matches emailRegex email = true
  /\ 6 <= length password
  /\ existsb upper password = true
  /\ existsb lower password = true
  /\ existsb digit password = true.
Proof.
  intros Hline. rewrite createUserSchema_accepts_first_line.
  rewrite (firstLine_of_one_line _ Hline). reflexivity.
Qed.

(** C9: the two-line password has eight characters, among them an upper
    case letter, a lower case letter and a digit, and [createUserSchema]
    refuses it with the message of the rule it meets. *)
Theorem createUserSchema_refuses_two_line_password :
  safeParse createUserSchema
    (createInput (js "Ana") (js "ana@example.com") twoLinePassword)
    = Invalid
        [mkIssue invalid_string [Key "password"]
           "A senha deve conter pelo menos uma letra maiúscula, uma minúscula e um número"]
  /\ length twoLinePassword = 8
  /\ existsb upper twoLinePassword = true
  /\ existsb lower twoLinePassword = true
  /\ existsb digit twoLinePassword = true
  /\ accepts createUserSchema
       (createInput (js "Ana") (js "ana@example.com") (js "abcABC1")) = true.
Proof. repeat split; vm_compute; reflexivity. Qed.

(** ** Validation *)

Lemma proper_vmap {A B} (f : A -> B) r : proper r -> proper (vmap f r).
Proof. destruct r as [a|[|i issues]]; cbn; auto. Qed.

Lemma proper_vap {A B} (f : validation (A -> B)) x :
  proper f -> proper x -> proper (f <*> x).
Proof.
  destruct f as [g|[|i issues]], x as [a|[|j more]]; cbn; auto.
Qed.

Lemma proper_zstring checks p v : proper (zstring checks p v).
Proof.
  unfold zstring. destruct v; cbn; auto.
  destruct (flat_map (runCheck p s) checks); cbn; auto.
Qed.

Lemma proper_zboolean p v : proper (zboolean p v).
Proof. destruct v; cbn; auto. Qed.

Lemma proper_optional {A} (inner : schema A) p v :
  (forall q w, proper (inner q w)) -> proper (optional inner p v).
Proof. intros H. destruct v; cbn; auto; apply proper_vmap, H. Qed.

Lemma proper_nullable {A} (inner : schema A) p v :
  (forall q w, proper (inner q w)) -> proper (nullable inner p v).
Proof. intros H. destruct v; cbn; auto; apply proper_vmap, H. Qed.

Lemma proper_zarray {A} (elem : schema A) p v :
  (forall q w, proper (elem q w)) -> proper (zarray elem p v).
Proof.
  intros H. destruct v; cbn; auto.
  generalize 0. induction items as [|w rest IH]; intros i; cbn; [auto|].
  apply proper_vap; [apply proper_vmap, H | apply IH].
Qed.


Create HintDb proper.
#[local] Hint Resolve proper_vmap proper_vap proper_zstring proper_zboolean
  proper_optional proper_nullable : proper.









Lemma issuesFound_vmap {A B} (f : A -> B) r : issuesFound (vmap f r) = issuesFound r.
Proof. destruct r; reflexivity. Qed.

Lemma issuesFound_vap {A B} (f : validation (A -> B)) x :
  issuesFound (f <*> x) = issuesFound f ++ issuesFound x.
Proof. destruct f, x; cbn; rewrite ?app_nil_r; reflexivity. Qed.









(** ** Errors of the service *)




(** * Further properties *)

(** ** Schemas, field by field *)

Lemma vmap_valid {A B} (f : A -> B) r b :
  vmap f r = Valid b <-> exists a, r = Valid a /\ b = f a.
Proof.
  destruct r as [a|issues]; cbn; split.
  - intros [= <-]. eauto.
  - intros (a' & [= <-] & ->). reflexivity.
  - discriminate.
  - intros (a' & H & _). discriminate.
Qed.

Lemma vap_valid {A B} (f : validation (A -> B)) x b :
  f <*> x = Valid b <-> exists g a, f = Valid g /\ x = Valid a /\ b = g a.
Proof.
  destruct f as [g|i], x as [a|j]; cbn; split;
    try discriminate;
    try (intros (g' & a' & Hf & Hx & _); discriminate).
  - intros [= <-]. eauto.
  - intros (g' & a' & [= <-] & [= <-] & ->). reflexivity.
Qed.

Lemma zstring_plain p v s : zstring [] p v = Valid s <-> v = JString s.
Proof.
  unfold zstring. destruct v; cbn; split; try discriminate; congruence.
Qed.

Lemma zstring_format (check : stringCheck) (re : regex) p v s :
  (forall q t, runCheck q t check = [] <-> matches re t = true) ->
  zstring [check] p v = Valid s <-> v = JString s /\ matches re s = true.
Proof.
  intros Hcheck. unfold zstring. destruct v as [| | | |t| |]; cbn;
    try (split; [discriminate | intros [? _]; discriminate]).
  rewrite app_nil_r. specialize (Hcheck p t).
  destruct (runCheck p t check) as [|i issues]; split.
  - intros [= <-]. split; [reflexivity | apply Hcheck; reflexivity].
  - intros [[= <-] _]. reflexivity.
  - discriminate.
  - intros [[= <-] Hs]. apply Hcheck in Hs. discriminate.
Qed.

Lemma runCheck_uuid q t : runCheck q t (uuid None) = [] <-> matches uuidRegex t = true.
Proof. cbn -[matches uuidRegex]. destruct (matches uuidRegex t); split; congruence. Qed.

Lemma runCheck_email msg q t : runCheck q t (email msg) = [] <-> matches emailRegex t = true.
Proof. cbn -[matches emailRegex]. destruct (matches emailRegex t); split; congruence. Qed.

Lemma runCheck_datetime q t :
  runCheck q t (datetime None) = [] <-> matches datetimeRegex t = true.
Proof.
  cbn -[matches datetimeRegex]. destruct (matches datetimeRegex t); split; congruence.
Qed.

Lemma nullable_datetime p v o :
  nullable (zstring [datetime None]) p v = Valid o <->
  (v = JNull /\ o = None)
  \/ (exists s, v = JString s /\ o = Some s /\ matches datetimeRegex s = true).
Proof.
  unfold nullable. destruct v as [| | | |t| |];
    try (rewrite vmap_valid; split;
         [ intros (a & Ha & _); cbn in Ha; discriminate
         | intros [[? _] | (s & ? & _)]; discriminate ]).
  - split; [intros [= <-]; left; auto | intros [[_ ->] | (s & ? & _)]; [reflexivity | discriminate]].
  - rewrite vmap_valid. split.
    + intros (a & Ha & ->).
      apply (zstring_format _ datetimeRegex) in Ha as [[= <-] Hs]; [|apply runCheck_datetime].
      right. eauto.
    + intros [[? _] | (s & [= <-] & -> & Hs)]; [discriminate|].
      exists t. split; [|reflexivity].
      apply (zstring_format _ datetimeRegex); [apply runCheck_datetime | auto].
Qed.

Lemma zboolean_valid p v b : zboolean p v = Valid b <-> v = JBool b.
Proof. destruct v; cbn; split; try discriminate; congruence. Qed.

(** What [userResponseSchema] lets through, wherever the value stands. *)
Lemma userResponseSchema_valid p data u :
  userResponseSchema p data = Valid u <-> holdsUser data u /\ wellFormedUser u.
Proof.
  unfold userResponseSchema, zobject, holdsUser, wellFormedUser. split.
  - destruct data as [| | | | | |props]; try discriminate. unfold field.
    intros H.
    apply vap_valid in H as (f6 & active & H & Hactive & ->).
    apply vap_valid in H as (f5 & deleted & H & Hdeleted & ->).
    apply vap_valid in H as (f4 & updated & H & Hupdated & ->).
    apply vap_valid in H as (f3 & created & H & Hcreated & ->).
    apply vap_valid in H as (f2 & mail & H & Hmail & ->).
    apply vap_valid in H as (f1 & name & H & Hname & ->).
    apply vmap_valid in H as (id & Hid & ->).
    apply (zstring_format _ uuidRegex) in Hid as [Hid Hid']; [|apply runCheck_uuid].
    apply zstring_plain in Hname.
    apply (zstring_format _ emailRegex) in Hmail as [Hmail Hmail']; [|apply runCheck_email].
    apply (zstring_format _ datetimeRegex) in Hcreated as [Hcreated Hcreated'];
      [|apply runCheck_datetime].
    apply (zstring_format _ datetimeRegex) in Hupdated as [Hupdated Hupdated'];
      [|apply runCheck_datetime].
    apply nullable_datetime in Hdeleted.
    apply zboolean_valid in Hactive.
    cbn. split.
    + exists props. repeat (split; [assumption || reflexivity|]).
      split; [|assumption].
      destruct Hdeleted as [[-> ->] | (s & -> & -> & _)]; reflexivity.
    + repeat (split; [assumption|]).
      intros s ->. destruct Hdeleted as [[_ [=]] | (s' & _ & [= <-] & Hs)]. exact Hs.
  - intros [(props & -> & Hid & Hname & Hmail & Hcreated & Hupdated & Hdeleted & Hactive)
              (Wid & Wmail & Wcreated & Wupdated & Wdeleted)].
    unfold field. destruct u as [id name mail created updated deleted active]. cbn in *.
    repeat (apply vap_valid; eexists; eexists; split; [|split; [|reflexivity]]).
    + apply vmap_valid. eexists. split; [|reflexivity].
      apply (zstring_format _ uuidRegex); [apply runCheck_uuid | eauto].
    + apply zstring_plain. exact Hname.
    + apply (zstring_format _ emailRegex); [apply runCheck_email | eauto].
    + apply (zstring_format _ datetimeRegex); [apply runCheck_datetime | eauto].
    + apply (zstring_format _ datetimeRegex); [apply runCheck_datetime | eauto].
    + apply nullable_datetime. destruct deleted as [s|]; [right | left]; eauto.
    + apply zboolean_valid. exact Hactive.
Qed.

Lemma parseItems_valid p items : forall i users,
  parseItems userResponseSchema p i items = Valid users <->
  Forall2 (fun v u => holdsUser v u /\ wellFormedUser u) items users.
Proof.
  induction items as [|v rest IH]; intros i users; cbn.
  - split; [intros [= <-]; constructor | intros H; inversion H; reflexivity].
  - rewrite vap_valid. split.
    + intros (g & tail & Hhead & Htail & ->).
      apply vmap_valid in Hhead as (u & Hu & ->).
      constructor; [apply userResponseSchema_valid in Hu; exact Hu | apply IH in Htail; exact Htail].
    + intros H. inversion H as [|? u ? tail Hu Htail]; subst.
      exists (cons u), tail. split; [|split; [apply IH; exact Htail | reflexivity]].
      apply vmap_valid. exists u. split; [|reflexivity].
      apply userResponseSchema_valid. exact Hu.
Qed.

Lemma zarray_valid body users :
  safeParse (zarray userResponseSchema) body = Valid users <->
  exists items,
    body = JArray items
    /\ Forall2 (fun v u => safeParse userResponseSchema v = Valid u) items users.
Proof.
  unfold safeParse, zarray.
  assert (Hsame : forall items,
            Forall2 (fun v u => holdsUser v u /\ wellFormedUser u) items users <->
            Forall2 (fun v u => userResponseSchema [] v = Valid u) items users).
  { intros items. split; intros H; eapply Forall2_impl; try exact H; cbn;
      intros v u Hvu; [apply userResponseSchema_valid | apply userResponseSchema_valid in Hvu];
      exact Hvu. }
  destruct body as [| | | | |items|]; try (split; [discriminate | intros (items & [=] & _)]).
  rewrite parseItems_valid, Hsame. split; [eauto|].
  intros (items' & [= <-] & H). exact H.
Qed.

(** ** The service: when an operation returns *)

Lemma getById_returns api id u :
  userService.getById api id = Return u <->
  exists body,
    Axios.get api (js "/users/" ++ id) = Axios.Fulfilled body
    /\ safeParse userResponseSchema body = Valid u.
Proof.
  unfold userService.getById, parse. split.
  - destruct (Axios.get api (js "/users/" ++ id)) as [body|e] eqn:Hget;
      cbn -[safeParse]; [|discriminate].
    destruct (safeParse userResponseSchema body) as [u'|issues] eqn:Hbody; [|discriminate].
    intros [= <-]. eauto.
  - intros (body & -> & Hbody). cbn -[safeParse]. rewrite Hbody. reflexivity.
Qed.

Lemma list_returns api users :
  userService.list api = Return users <->
  exists body,
    Axios.get api (js "/users") = Axios.Fulfilled body
    /\ safeParse (zarray userResponseSchema) body = Valid users.
Proof.
  unfold userService.list, parse. split.
  - destruct (Axios.get api (js "/users")) as [body|e] eqn:Hget;
      cbn -[safeParse]; [|discriminate].
    destruct (safeParse (zarray userResponseSchema) body) as [u'|issues] eqn:Hbody;
      [|discriminate].
    intros [= <-]. eauto.
  - intros (body & -> & Hbody). cbn -[safeParse]. rewrite Hbody. reflexivity.
Qed.

Lemma create_returns api userData u :
  userService.create api userData = Return u <->
  exists validatedData body,
    safeParse createUserSchema userData = Valid validatedData
    /\ Axios.post api (js "/users") (createBody validatedData) = Axios.Fulfilled body
    /\ safeParse userResponseSchema body = Valid u.
Proof.
  unfold userService.create, parse. split.
  - destruct (safeParse createUserSchema userData) as [d|issues];
      cbn -[js safeParse]; [|discriminate].
    destruct (Axios.post api (js "/users") (createBody d)) as [body|e] eqn:Hpost;
      cbn -[js safeParse]; [|discriminate].
    destruct (safeParse userResponseSchema body) as [u'|issues] eqn:Hbody; [|discriminate].
    intros [= <-]. eauto.
  - intros (d & body & -> & Hpost & Hbody). cbn -[js safeParse].
    rewrite Hpost. cbn -[safeParse]. rewrite Hbody. reflexivity.
Qed.

Lemma update_returns api id userData u :
  userService.update api id userData = Return u <->
  exists validatedData body,
    safeParse updateUserSchema userData = Valid validatedData
    /\ Axios.put api (js "/users/" ++ id) (updateBody validatedData) = Axios.Fulfilled body
    /\ safeParse userResponseSchema body = Valid u.
Proof.
  unfold userService.update, parse. split.
  - destruct (safeParse updateUserSchema userData) as [d|issues];
      cbn -[js app safeParse]; [|discriminate].
    destruct (Axios.put api (js "/users/" ++ id) (updateBody d)) as [body|e] eqn:Hput;
      cbn -[js app safeParse]; [|discriminate].
    destruct (safeParse userResponseSchema body) as [u'|issues] eqn:Hbody; [|discriminate].
    intros [= <-]. eauto.
  - intros (d & body & -> & Hput & Hbody). cbn -[js app safeParse].
    rewrite Hput. cbn -[safeParse]. rewrite Hbody. reflexivity.
Qed.

Lemma returned_user_well_formed body u :
  safeParse userResponseSchema body = Valid u -> wellFormedUser u.
Proof. intros H. apply userResponseSchema_valid in H. tauto. Qed.

Lemma returned_users_well_formed body users :
  safeParse (zarray userResponseSchema) body = Valid users -> Forall wellFormedUser users.
Proof.
  intros H. apply zarray_valid in H as (items & _ & H).
  induction H as [|v u items users Hvu _ IH]; constructor; [|exact IH].
  eapply returned_user_well_formed. exact Hvu.
Qed.

Lemma dispatch_well_formed api a s :
  holdsWellFormedUsers s -> holdsWellFormedUsers (dispatch api a s).
Proof.
  unfold holdsWellFormedUsers. intros [Husers Hselected].
  destruct a as [|userData|id userData|id|id].
  - destruct (userService.list api) as [users|e] eqn:Hcall.
    + rewrite (dispatch_fetchUsers_ok _ _ _ Hcall). cbn. split; [|exact Hselected].
      apply list_returns in Hcall as (body & _ & Hbody).
      eapply returned_users_well_formed. exact Hbody.
    + rewrite (dispatch_failure api s FetchUsers e); [auto|]. cbn. rewrite Hcall. reflexivity.
  - destruct (userService.create api userData) as [newUser|e] eqn:Hcall.
    + rewrite (dispatch_createUser_ok _ _ _ _ Hcall). cbn. split; [|exact Hselected].
      apply create_returns in Hcall as (d & body & _ & _ & Hbody).
      apply Forall_app. split; [exact Husers|].
      constructor; [|constructor]. eapply returned_user_well_formed. exact Hbody.
    + rewrite (dispatch_failure api s (CreateUser userData) e); [auto|].
      cbn. rewrite Hcall. reflexivity.
  - destruct (userService.update api id userData) as [updatedUser|e] eqn:Hcall.
    + rewrite (dispatch_updateUser_ok _ _ _ _ _ Hcall). cbn. split; [|exact Hselected].
      apply update_returns in Hcall as (d & body & _ & _ & Hbody).
      apply returned_user_well_formed in Hbody.
      induction Husers as [|user rest Huser _ IH]; cbn; constructor; [|exact IH].
      destruct (hasId id user); assumption.
    + rewrite (dispatch_failure api s (UpdateUser id userData) e); [auto|].
      cbn. rewrite Hcall. reflexivity.
  - destruct (userService.delete api id) as [[]|e] eqn:Hcall.
    + rewrite (dispatch_deleteUser_ok _ _ _ Hcall). cbn. split; [|exact Hselected].
      rewrite Forall_forall in *. intros u Hu. apply Husers.
      apply list_elem_of_In in Hu. apply filter_In in Hu as [Hu _].
      apply list_elem_of_In. exact Hu.
    + rewrite (dispatch_failure api s (DeleteUser id) e); [auto|].
      cbn. rewrite Hcall. reflexivity.
  - destruct (userService.getById api id) as [user|e] eqn:Hcall.
    + rewrite (dispatch_fetchUserById_ok _ _ _ _ Hcall). cbn. split; [exact Husers|].
      intros u [= <-]. apply getById_returns in Hcall as (body & _ & Hbody).
      eapply returned_user_well_formed. exact Hbody.
    + rewrite (dispatch_failure api s (FetchUserById id) e); [auto|].
      cbn. rewrite Hcall. reflexivity.
Qed.

Lemma dispatchAll_well_formed steps : forall s,
  holdsWellFormedUsers s -> holdsWellFormedUsers (dispatchAll steps s).
Proof.
  induction steps as [|[api a] rest IH]; cbn; intros s Hs; [exact Hs|].
  apply IH. apply dispatch_well_formed. exact Hs.
Qed.

Lemma initial_well_formed : holdsWellFormedUsers useUserStore.initial.
Proof. split; [constructor | intros u [=]]. Qed.

(** ** The schemas of the input, on any data *)

Lemma nameSchema_valid p v s : nameSchema p v = Valid s <-> v = JString s /\ nameRule s.
Proof.
  unfold nameSchema, zstring, nameRule.
  destruct v as [| | | |t| |]; try (split; [discriminate | intros [[=] _]]).
  cbn -[Nat.ltb length]. split.
  - destruct (Nat.ltb_spec (length t) 1), (Nat.ltb_spec 255 (length t)); cbn;
      try discriminate. intros [= <-]. split; [reflexivity | lia].
  - intros [[= <-] Hrule].
    destruct (Nat.ltb_spec (length t) 1), (Nat.ltb_spec 255 (length t)); cbn;
      first [reflexivity | lia].
Qed.

Lemma emailSchema_valid p v s : emailSchema p v = Valid s <-> v = JString s /\ emailRule s.
Proof.
  unfold emailSchema, zstring, emailRule.
  destruct v as [| | | |t| |]; try (split; [discriminate | intros [[=] _]]).
  cbn -[Nat.ltb length matches emailRegex]. split.
  - destruct (matches emailRegex t) eqn:Hmatch, (Nat.ltb_spec (length t) 1); cbn;
      try discriminate. intros [= <-]. auto.
  - intros [[= <-] Hrule]. rewrite Hrule.
    apply emailRegex_not_empty in Hrule.
    destruct (Nat.ltb_spec (length t) 1); [lia | reflexivity].
Qed.

Lemma passwordSchema_valid p v s :
  passwordSchema p v = Valid s <-> v = JString s /\ passwordRule s.
Proof.
  unfold passwordSchema, zstring, passwordRule.
  destruct v as [| | | |t| |]; try (split; [discriminate | intros [[=] _]]).
  cbn -[Nat.ltb length matches passwordRegex]. split.
  - destruct (Nat.ltb_spec (length t) 6), (matches passwordRegex t) eqn:Hmatch; cbn;
      try discriminate. intros [= <-]. auto.
  - intros [[= <-] [Hlen Hmatch]]. rewrite Hmatch.
    destruct (Nat.ltb_spec (length t) 6); [lia | reflexivity].
Qed.

Lemma optional_valid {A} (inner : schema A) p v o :
  optional inner p v = Valid o <->
  (v = JUndefined /\ o = None) \/ (v <> JUndefined /\ exists a, inner p v = Valid a /\ o = Some a).
Proof.
  unfold optional. destruct v;
    try (rewrite vmap_valid; split;
         [ intros (a & Ha & ->); right; split; [discriminate | eauto]
         | intros [[[=] _] | (_ & a & Ha & ->)]; eauto ]).
  split; [intros [= <-]; left; auto | intros [[_ ->] | ([] & _)]; reflexivity].
Qed.

Lemma optional_string_valid (inner : schema jstring) (rule : jstring -> Prop) p v o :
  (forall q w s, inner q w = Valid s <-> w = JString s /\ rule s) ->
  optional inner p v = Valid o <-> optionalField v o rule.
Proof.
  intros Hinner. rewrite optional_valid. unfold optionalField. split.
  - intros [H | (_ & s & Hs & ->)]; [left; exact H | right].
    apply Hinner in Hs as [-> Hrule]. eauto.
  - intros [H | (s & -> & -> & Hrule)]; [left; exact H | right].
    split; [discriminate|]. exists s. split; [|reflexivity].
    apply Hinner. auto.
Qed.

Lemma createUserSchema_valid p data d :
  createUserSchema p data = Valid d <->
  exists props,
    data = JObject props
    /\ getOwn "name" props = JString (CreateUserDTO.name d)
    /\ getOwn "email" props = JString (CreateUserDTO.email d)
    /\ getOwn "password" props = JString (CreateUserDTO.password d)
    /\ nameRule (CreateUserDTO.name d)
    /\ emailRule (CreateUserDTO.email d)
    /\ passwordRule (CreateUserDTO.password d).
Proof.
  unfold createUserSchema, zobject, field. split.
  - destruct data as [| | | | | |props]; try discriminate. intros H.
    apply vap_valid in H as (f2 & pw & H & Hpw & ->).
    apply vap_valid in H as (f1 & mail & H & Hmail & ->).
    apply vmap_valid in H as (name & Hname & ->).
    apply nameSchema_valid in Hname as [? ?].
    apply emailSchema_valid in Hmail as [? ?].
    apply passwordSchema_valid in Hpw as [? ?].
    exists props. cbn. auto 10.
  - intros (props & -> & Hname & Hmail & Hpw & Rname & Rmail & Rpw).
    destruct d as [name mail pw]. cbn in *.
    repeat (apply vap_valid; eexists; eexists; split; [|split; [|reflexivity]]).
    + apply vmap_valid. eexists. split; [|reflexivity]. apply nameSchema_valid. eauto.
    + apply emailSchema_valid. eauto.
    + apply passwordSchema_valid. eauto.
Qed.

Lemma updateUserSchema_valid p data d :
  updateUserSchema p data = Valid d <->
  exists props,
    data = JObject props
    /\ optionalField (getOwn "name" props) (UpdateUserDTO.name d) nameRule
    /\ optionalField (getOwn "email" props) (UpdateUserDTO.email d) emailRule
    /\ optionalField (getOwn "password" props) (UpdateUserDTO.password d) passwordRule.
Proof.
  unfold updateUserSchema, zobject, field. split.
  - destruct data as [| | | | | |props]; try discriminate. intros H.
    apply vap_valid in H as (f2 & pw & H & Hpw & ->).
    apply vap_valid in H as (f1 & mail & H & Hmail & ->).
    apply vmap_valid in H as (name & Hname & ->).
    apply (optional_string_valid _ nameRule) in Hname; [|intros; apply nameSchema_valid].
    apply (optional_string_valid _ emailRule) in Hmail; [|intros; apply emailSchema_valid].
    apply (optional_string_valid _ passwordRule) in Hpw; [|intros; apply passwordSchema_valid].
    exists props. cbn. auto.
  - intros (props & -> & Hname & Hmail & Hpw).
    destruct d as [name mail pw]. cbn in *.
    repeat (apply vap_valid; eexists; eexists; split; [|split; [|reflexivity]]).
    + apply vmap_valid. eexists. split; [|reflexivity].
      apply (optional_string_valid _ nameRule); [intros; apply nameSchema_valid | exact Hname].
    + apply (optional_string_valid _ emailRule); [intros; apply emailSchema_valid | exact Hmail].
    + apply (optional_string_valid _ passwordRule);
        [intros; apply passwordSchema_valid | exact Hpw].
Qed.

(** ** Lengths of what a pattern matches *)

Lemma lang_Cls_length p s : lang (Cls p) s -> length s = 1.
Proof. intros (c & -> & _). reflexivity. Qed.

Lemma lang_Cat_length a b n m s :
  (forall t, lang a t -> length t = n) -> (forall t, lang b t -> length t = m) ->
  lang (Cat a b) s -> length s = n + m.
Proof.
  intros Ha Hb (s1 & s2 & -> & H1 & H2). rewrite length_app, (Ha _ H1), (Hb _ H2). reflexivity.
Qed.

Lemma lang_times_length r k n : 
  (forall t, lang r t -> length t = k) -> forall s, lang (times n r) s -> length s = n * k.
Proof.
  intros Hr. induction n as [|n IH]; intros s; cbn.
  - intros ->. reflexivity.
  - intros (s1 & s2 & -> & H1 & H2). rewrite length_app, (Hr _ H1), (IH _ H2). reflexivity.
Qed.

Lemma uuid_length s : matches uuidRegex s = true -> length s = 36.
Proof.
  intros H. apply matches_lang in H. revert s H. unfold uuidRegex. cbv zeta.
  change 36 with (8 * 1 + (1 + (4 * 1 + (1 + (4 * 1 + (1 + (4 * 1 + (1 + 12 * 1)))))))).
  repeat first
    [ intros ?; apply lang_times_length
    | intros ?; apply lang_Cls_length
    | intros ?; apply lang_Cat_length ].
Qed.

(** ** Schemas: what they accept and what they give back *)

(** X1: [createUserSchema] accepts exactly the objects whose [name], [email]
    and [password] are strings that keep their rules, and gives back those
    three strings; other keys are dropped. *)
Theorem createUserSchema_accepts_exactly data d :
  safeParse createUserSchema data = Valid d <->
  exists props,
    data = JObject props
    /\ getOwn "name" props = JString (CreateUserDTO.name d)
    /\ getOwn "email" props = JString (CreateUserDTO.email d)
    /\ getOwn "password" props = JString (CreateUserDTO.password d)
    /\ nameRule (CreateUserDTO.name d)
    /\ emailRule (CreateUserDTO.email d)
    /\ passwordRule (CreateUserDTO.password d).
Proof. apply createUserSchema_valid. Qed.

(** X3: [updateUserSchema] accepts exactly the objects in which each of the
    three keys is absent, and then left out of the result, or a string that
    keeps the rule of the key: an empty object passes, a present empty name
    does not. *)
Theorem updateUserSchema_accepts_exactly data d :
  safeParse updateUserSchema data = Valid d <->
  exists props,
    data = JObject props
    /\ optionalField (getOwn "name" props) (UpdateUserDTO.name d) nameRule
    /\ optionalField (getOwn "email" props) (UpdateUserDTO.email d) emailRule
    /\ optionalField (getOwn "password" props) (UpdateUserDTO.password d) passwordRule.
Proof. apply updateUserSchema_valid. Qed.

(** X4: What [createUserSchema] accepts, [updateUserSchema] accepts too, with
    the same three values. *)
Theorem updateUserSchema_accepts_created_input data d :
  safeParse createUserSchema data = Valid d ->
  safeParse updateUserSchema data =
    Valid (UpdateUserDTO.mk (Some (CreateUserDTO.name d)) (Some (CreateUserDTO.email d))
             (Some (CreateUserDTO.password d))).
Proof.
  intros H. apply createUserSchema_valid in H
    as (props & -> & Hname & Hmail & Hpw & Rname & Rmail & Rpw).
  apply updateUserSchema_valid. exists props. cbn.
  split; [reflexivity|]. unfold optionalField.
  split; [|split]; right; eauto.
Qed.

Lemma updateUserSchema_accepts_created_input_witness :
  safeParse updateUserSchema
    (createInput (js "Ana") (js "ana@example.com") (js "Abcdef1")) =
    Valid (UpdateUserDTO.mk (Some (js "Ana")) (Some (js "ana@example.com"))
             (Some (js "Abcdef1"))).
Proof.
  exact (updateUserSchema_accepts_created_input
           (createInput (js "Ana") (js "ana@example.com") (js "Abcdef1"))
           (CreateUserDTO.mk (js "Ana") (js "ana@example.com") (js "Abcdef1")) eq_refl).
Defined.

Lemma getOwn_updateBody d :
  getOwn "name" (optionalProp "name" (UpdateUserDTO.name d)
                 ++ optionalProp "email" (UpdateUserDTO.email d)
                 ++ optionalProp "password" (UpdateUserDTO.password d))
    = from_option JString JUndefined (UpdateUserDTO.name d)
  /\ getOwn "email" (optionalProp "name" (UpdateUserDTO.name d)
                     ++ optionalProp "email" (UpdateUserDTO.email d)
                     ++ optionalProp "password" (UpdateUserDTO.password d))
     = from_option JString JUndefined (UpdateUserDTO.email d)
  /\ getOwn "password" (optionalProp "name" (UpdateUserDTO.name d)
                        ++ optionalProp "email" (UpdateUserDTO.email d)
                        ++ optionalProp "password" (UpdateUserDTO.password d))
     = from_option JString JUndefined (UpdateUserDTO.password d).
Proof. destruct d as [[n|] [e|] [p|]]; cbn; auto. Qed.

Lemma optionalField_sent v o rule :
  optionalField v o rule -> optionalField (from_option JString JUndefined o) o rule.
Proof.
  intros [[_ ->] | (s & _ & -> & Hs)]; [left; auto | right; eauto].
Qed.

(** X5: The body the service sends is the validated input and passes its
    schema again, unchanged: validation neither alters a value nor lets an
    unknown key through. *)
Theorem validated_input_revalidates :
  (forall data d,
     safeParse createUserSchema data = Valid d ->
     safeParse createUserSchema (createBody d) = Valid d)
  /\ (forall data d,
        safeParse updateUserSchema data = Valid d ->
        safeParse updateUserSchema (updateBody d) = Valid d).
Proof.
  split; intros data d H.
  - apply createUserSchema_valid in H as (props & _ & _ & _ & _ & Rname & Rmail & Rpw).
    apply createUserSchema_valid. unfold createBody. eexists. split; [reflexivity|].
    cbn. repeat split; (reflexivity || assumption || apply Rname || apply Rpw).
  - apply updateUserSchema_valid in H as (props & _ & Hname & Hmail & Hpw).
    apply updateUserSchema_valid. unfold updateBody. eexists. split; [reflexivity|].
    destruct (getOwn_updateBody d) as (-> & -> & ->).
    repeat split; eapply optionalField_sent; eassumption.
Qed.

Lemma validated_input_revalidates_witness :
  safeParse updateUserSchema
    (updateBody (UpdateUserDTO.mk (Some (js "Ana Maria")) None None))
    = Valid (UpdateUserDTO.mk (Some (js "Ana Maria")) None None).
Proof.
  exact (proj2 validated_input_revalidates
           (JObject [("name", JString (js "Ana Maria")); ("role", JString (js "admin"))])
           (UpdateUserDTO.mk (Some (js "Ana Maria")) None None) eq_refl).
Defined.

(** X6: The issues [createUserSchema] finds in an object are those of its three
    keys, one key after the other, whatever the other keys hold; a key that
    is absent gives the one issue [Required]. *)
Theorem createUserSchema_reports_every_key props :
  issuesFound (safeParse createUserSchema (JObject props)) =
    issuesFound (nameSchema [Key "name"] (getOwn "name" props))
    ++ issuesFound (emailSchema [Key "email"] (getOwn "email" props))
    ++ issuesFound (passwordSchema [Key "password"] (getOwn "password" props))
  /\ (forall p,
        issuesFound (nameSchema p JUndefined) = [mkIssue invalid_type p "Required"]
        /\ issuesFound (emailSchema p JUndefined) = [mkIssue invalid_type p "Required"]
        /\ issuesFound (passwordSchema p JUndefined) = [mkIssue invalid_type p "Required"]).
Proof.
  split; [|intros p; repeat split].
  unfold safeParse, createUserSchema, zobject, field.
  rewrite !issuesFound_vap, issuesFound_vmap, <- app_assoc. reflexivity.
Qed.

(** X7: [userResponseSchema] accepts exactly the objects that hold, under its
    seven keys, strings in the formats of the schema, a [deleted_at] that
    may be [null] and a boolean; the user it gives back has those values. *)
Theorem userResponseSchema_accepts_exactly data u :
  safeParse userResponseSchema data = Valid u <-> holdsUser data u /\ wellFormedUser u.
Proof. apply userResponseSchema_valid. Qed.

(** X8: A user written as JSON passes [userResponseSchema] and comes back
    unchanged exactly when its strings are in the formats of the schema. *)
Theorem userBody_round_trip u :
  safeParse userResponseSchema (userBody u) = Valid u <-> wellFormedUser u.
Proof.
  unfold safeParse. rewrite userResponseSchema_valid. split; [tauto|].
  intros Hu. split; [|exact Hu].
  eexists. split; [reflexivity|]. cbn. auto 10.
Qed.

(** ** The service: what it returns *)

(** X9: [userService.list] returns exactly when the request succeeds with an
    array whose every item passes [userResponseSchema]; the users are the
    validated items, one for one and in the order of the response. *)
Theorem list_returns_users_in_response_order api users :
  userService.list api = Return users <->
  exists items,
    Axios.get api (js "/users") = Axios.Fulfilled (JArray items)
    /\ Forall2 (fun item user => safeParse userResponseSchema item = Valid user) items users.
Proof.
  rewrite list_returns. split.
  - intros (body & Hget & Hbody). apply zarray_valid in Hbody as (items & -> & Hitems). eauto.
  - intros (items & Hget & Hitems). exists (JArray items). split; [exact Hget|].
    apply zarray_valid. eauto.
Qed.

(** X10: [create], [update] and [getById] return a user exactly when the input
    (if any) passes its schema, the request made with the validated input
    succeeds, and the body of the response passes [userResponseSchema]; the
    user returned is that validated body. *)
Theorem service_returns_validated_response api :
  (forall userData user,
     userService.create api userData = Return user <->
     exists validatedData body,
       safeParse createUserSchema userData = Valid validatedData
       /\ Axios.post api (js "/users") (createBody validatedData) = Axios.Fulfilled body
       /\ safeParse userResponseSchema body = Valid user)
  /\ (forall id userData user,
        userService.update api id userData = Return user <->
        exists validatedData body,
          safeParse updateUserSchema userData = Valid validatedData
          /\ Axios.put api (js "/users/" ++ id) (updateBody validatedData) = Axios.Fulfilled body
          /\ safeParse userResponseSchema body = Valid user)
  /\ (forall id user,
        userService.getById api id = Return user <->
        exists body,
          Axios.get api (js "/users/" ++ id) = Axios.Fulfilled body
          /\ safeParse userResponseSchema body = Valid user).
Proof.
  split; [|split]; intros.
  - apply create_returns.
  - apply update_returns.
  - apply getById_returns.
Qed.

(** ** The store: what it holds *)

(** X11: Whatever the server answers, after any sequence of actions from the
    empty state every user in the collection and the selected user have
    passed [userResponseSchema]: an identifier in the format of a uuid, an
    email and dates in their formats. *)
Theorem store_holds_only_validated_users steps :
  holdsWellFormedUsers (dispatchAll steps useUserStore.initial).
Proof. apply dispatchAll_well_formed, initial_well_formed. Qed.

(** X12: In particular no user of the collection has an empty identifier: each
    has the 36 characters of a uuid. *)
Theorem stored_identifiers_have_36_characters steps user :
  user ∈ UserState.users (dispatchAll steps useUserStore.initial) ->
  length (User.id user) = 36.
Proof.
  intros Hin.
  destruct (dispatchAll_well_formed steps _ initial_well_formed) as [Husers _].
  rewrite Forall_forall in Husers. apply Husers in Hin as (Hid & _).
  apply uuid_length. exact Hid.
Qed.

Lemma stored_identifiers_have_36_characters_witness :
  length (User.id ana) = 36.
Proof.
  apply (stored_identifiers_have_36_characters
           [(answering (JArray [userJson idAna "Ana"; userJson idBia "Bia"]), FetchUsers)] ana).
  vm_compute. apply list_elem_of_here.
Defined.

(** X13: Every action that has run to its end leaves [loading] false, and
    [error] holding the text of what the service threw, or null when it
    threw nothing: an older error does not outlive a later success. *)
Theorem action_ends_idle api a s :
  UserState.loading (dispatch api a s) = false
  /\ UserState.error (dispatch api a s)
     = match failure api a with
       | Some e => Some (errorText e (fallbackText a))
       | None => None
       end.
Proof.
  unfold dispatch.
  destruct a; cbn;
    match goal with
    | |- context [thrownBy ?call] => destruct call; cbn
    end; auto.
Qed.

(** X14: A successful [fetchUsers] puts the list of the service in place of the
    collection, whatever the collection held, and leaves the selection. *)
Theorem fetchUsers_replaces_collection api users s :
  userService.list api = Return users ->
  UserState.users (dispatch api FetchUsers s) = users
  /\ UserState.selectedUser (dispatch api FetchUsers s) = UserState.selectedUser s
  /\ forall s', UserState.users (dispatch api FetchUsers s')
                = UserState.users (dispatch api FetchUsers s).
Proof.
  intros Hok. split; [|split]; [| |intros s'];
    rewrite !(dispatch_fetchUsers_ok _ _ _ Hok); reflexivity.
Qed.

Lemma fetchUsers_replaces_collection_witness :
  UserState.users
    (dispatch (answering (JArray [userJson idBia "Bia"])) FetchUsers
       (UserState.mk [ana] false None (Some ana))) = [bia].
Proof.
  exact (proj1 (fetchUsers_replaces_collection
                  (answering (JArray [userJson idBia "Bia"])) [bia]
                  (UserState.mk [ana] false None (Some ana)) eq_refl)).
Defined.

(** X15: A successful [createUser] adds the new user after the last element:
    the elements already there keep their places, and the selection is
    left as it was. Nothing is looked up: a user whose identifier the
    collection already holds is added all the same. *)
Theorem createUser_appends api userData newUser s :
  userService.create api userData = Return newUser ->
  length (UserState.users (dispatch api (CreateUser userData) s))
    = S (length (UserState.users s))
  /\ (forall i user,
        UserState.users s !! i = Some user ->
        UserState.users (dispatch api (CreateUser userData) s) !! i = Some user)
  /\ UserState.users (dispatch api (CreateUser userData) s) !! length (UserState.users s)
     = Some newUser
  /\ UserState.selectedUser (dispatch api (CreateUser userData) s)
     = UserState.selectedUser s.
Proof.
  intros Hok. rewrite (dispatch_createUser_ok _ _ _ _ Hok). cbn.
  split; [rewrite length_app; cbn; lia|]. split; [|split; [|reflexivity]].
  - intros i user Hi. apply lookup_app_l_Some. exact Hi.
  - rewrite lookup_app_r by lia. rewrite Nat.sub_diag. reflexivity.
Qed.

Lemma createUser_appends_witness :
  UserState.users
    (dispatch (answering (userJson idAna "Ana"))
       (CreateUser (createInput (js "Ana") (js "ana@example.com") (js "Abcdef1")))
       (UserState.mk [ana; bia] false None None)) !! 2 = Some ana.
Proof.
  exact (proj1 (proj2 (proj2
           (createUser_appends (answering (userJson idAna "Ana"))
              (createInput (js "Ana") (js "ana@example.com") (js "Abcdef1")) ana
              (UserState.mk [ana; bia] false None None) eq_refl)))).
Defined.

(** X16: A successful [fetchUserById] selects the user of the service and
    leaves the collection as it was, also when the collection holds another
    version of that user. *)
Theorem fetchUserById_selects api id user s :
  userService.getById api id = Return user ->
  UserState.selectedUser (dispatch api (FetchUserById id) s) = Some user
  /\ UserState.users (dispatch api (FetchUserById id) s) = UserState.users s.
Proof. intros Hok. rewrite (dispatch_fetchUserById_ok _ _ _ _ Hok). auto. Qed.

Lemma fetchUserById_selects_witness :
  UserState.selectedUser
    (dispatch (answering (userJson idAna "Ana Maria")) (FetchUserById idAna)
       (UserState.mk [ana] false None None)) = Some anaRenamed
  /\ UserState.users
       (dispatch (answering (userJson idAna "Ana Maria")) (FetchUserById idAna)
          (UserState.mk [ana] false None None)) = [ana].
Proof.
  exact (fetchUserById_selects (answering (userJson idAna "Ana Maria")) idAna anaRenamed
           (UserState.mk [ana] false None None) eq_refl).
Defined.

(** ** The store: actions one after the other *)

Lemma filter_keeps_all {A} (keep : A -> bool) (l : list A) :
  (forall x, x ∈ l -> keep x = true) -> List.filter keep l = l.
Proof.
  induction l as [|x l IH]; cbn; intros Hall; [reflexivity|].
  rewrite (Hall x) by apply list_elem_of_here. f_equal.
  apply IH. intros y Hy. apply Hall. apply list_elem_of_further. exact Hy.
Qed.

Lemma replace_finds_nothing id (updatedUser : User.t) (users : list User.t) :
  (forall user, user ∈ users -> User.id user <> id) ->
  map (fun user => if hasId id user then updatedUser else user) users = users.
Proof.
  induction users as [|user rest IH]; cbn; intros Hnone; [reflexivity|].
  unfold hasId at 1. rewrite bool_decide_eq_false_2 by (apply Hnone; apply list_elem_of_here).
  f_equal. apply IH. intros u Hu. apply Hnone. apply list_elem_of_further. exact Hu.
Qed.

(** With no user of the identifier [id] in the collection, neither a
    deletion nor an update of [id] changes the collection, whatever the
    server answers. *)
Lemma absent_id_untouched api id s :
  (forall user, user ∈ UserState.users s -> User.id user <> id) ->
  UserState.users (dispatch api (DeleteUser id) s) = UserState.users s
  /\ forall userData,
       UserState.users (dispatch api (UpdateUser id userData) s) = UserState.users s.
Proof.
  intros Hnone. split; [|intros userData].
  - destruct (userService.delete api id) as [[]|e] eqn:Hcall.
    + rewrite (dispatch_deleteUser_ok _ _ _ Hcall). cbn.
      apply filter_keeps_all. intros user Hu. apply Hnone in Hu.
      unfold hasId. rewrite bool_decide_eq_false_2; auto.
    + rewrite (dispatch_failure api s (DeleteUser id) e); [reflexivity|].
      cbn. rewrite Hcall. reflexivity.
  - destruct (userService.update api id userData) as [updatedUser|e] eqn:Hcall.
    + rewrite (dispatch_updateUser_ok _ _ _ _ _ Hcall). cbn.
      apply replace_finds_nothing. exact Hnone.
    + rewrite (dispatch_failure api s (UpdateUser id userData) e); [reflexivity|].
      cbn. rewrite Hcall. reflexivity.
Qed.

(** X17: Deleting the user just created gives the collection back as it was,
    when no other user had the identifier of the new one. *)
Theorem deleteUser_undoes_createUser api1 api2 userData newUser s :
  userService.create api1 userData = Return newUser ->
  userService.delete api2 (User.id newUser) = Return tt ->
  (forall user, user ∈ UserState.users s -> User.id user <> User.id newUser) ->
  UserState.users
    (dispatch api2 (DeleteUser (User.id newUser)) (dispatch api1 (CreateUser userData) s))
    = UserState.users s.
Proof.
  intros Hcreate Hdelete Hfresh.
  rewrite (dispatch_deleteUser_ok _ _ _ Hdelete), (dispatch_createUser_ok _ _ _ _ Hcreate).
  cbn. rewrite List.filter_app. cbn. unfold hasId at 2.
  rewrite bool_decide_eq_true_2 by reflexivity. cbn. rewrite app_nil_r.
  apply filter_keeps_all. intros user Hu. apply Hfresh in Hu.
  unfold hasId. rewrite bool_decide_eq_false_2; auto.
Qed.

Lemma deleteUser_undoes_createUser_witness :
  UserState.users
    (dispatch (answering JNull) (DeleteUser (User.id ana))
       (dispatch (answering (userJson idAna "Ana"))
          (CreateUser (createInput (js "Ana") (js "ana@example.com") (js "Abcdef1")))
          (UserState.mk [bia] false None None)))
    = [bia].
Proof.
  apply (deleteUser_undoes_createUser (answering (userJson idAna "Ana")) (answering JNull)
           (createInput (js "Ana") (js "ana@example.com") (js "Abcdef1")) ana
           (UserState.mk [bia] false None None) eq_refl eq_refl).
  intros user Hu. apply list_elem_of_singleton in Hu. subst user.
  vm_compute. discriminate.
Defined.

(** X18: Once a deletion of [id] has succeeded, a second deletion or an update
    of [id] leaves the collection as the first deletion left it, whether
    the server accepts or refuses it: an update does not bring the user
    back. *)
Theorem deleted_user_stays_deleted api1 api2 id s :
  userService.delete api1 id = Return tt ->
  UserState.users (dispatch api2 (DeleteUser id) (dispatch api1 (DeleteUser id) s))
    = UserState.users (dispatch api1 (DeleteUser id) s)
  /\ forall userData,
       UserState.users (dispatch api2 (UpdateUser id userData) (dispatch api1 (DeleteUser id) s))
       = UserState.users (dispatch api1 (DeleteUser id) s).
Proof.
  intros Hdelete. apply absent_id_untouched.
  rewrite (dispatch_deleteUser_ok _ _ _ Hdelete). cbn.
  intros user Hu. apply list_elem_of_In, filter_In in Hu as [_ Hu].
  unfold hasId in Hu. apply negb_true_iff, bool_decide_eq_false in Hu. exact Hu.
Qed.

Lemma deleted_user_stays_deleted_witness :
  UserState.users
    (dispatch (answering (userJson idAna "Ana Maria")) (UpdateUser idAna (newName "Ana Maria"))
       (dispatch (answering JNull) (DeleteUser idAna)
          (UserState.mk [ana; bia] false None None)))
    = UserState.users
        (dispatch (answering JNull) (DeleteUser idAna)
           (UserState.mk [ana; bia] false None None)).
Proof.
  exact (proj2 (deleted_user_stays_deleted (answering JNull)
                  (answering (userJson idAna "Ana Maria")) idAna
                  (UserState.mk [ana; bia] false None None) eq_refl)
           (newName "Ana Maria")).
Defined.

(** X19: The same successful update done twice leaves the state the first one
    left. *)
Theorem updateUser_twice api id userData updatedUser s :
  userService.update api id userData = Return updatedUser ->
  dispatch api (UpdateUser id userData) (dispatch api (UpdateUser id userData) s)
    = dispatch api (UpdateUser id userData) s.
Proof.
  intros Hok. rewrite !(dispatch_updateUser_ok _ _ _ _ _ Hok). cbn. f_equal.
  rewrite map_map. apply map_ext. intros user.
  destruct (hasId id user) eqn:Huser; [|rewrite Huser; reflexivity].
  destruct (hasId id updatedUser); reflexivity.
Qed.

Lemma updateUser_twice_witness :
  dispatch (answering (userJson idAna "Ana Maria")) (UpdateUser idAna (newName "Ana Maria"))
    (dispatch (answering (userJson idAna "Ana Maria")) (UpdateUser idAna (newName "Ana Maria"))
       (UserState.mk [ana; bia] false None None))
  = dispatch (answering (userJson idAna "Ana Maria")) (UpdateUser idAna (newName "Ana Maria"))
      (UserState.mk [ana; bia] false None None).
Proof.
  exact (updateUser_twice (answering (userJson idAna "Ana Maria")) idAna
           (newName "Ana Maria") anaRenamed (UserState.mk [ana; bia] false None None) eq_refl).
Defined.

(** ** The store: actions that overlap *)

(** X21: [loading] is one flag for all actions: of two actions invoked together
    the first to settle sets it to false, while the other is still waiting
    for the service. *)
Theorem loading_ends_with_first_settled api1 a1 a2 s :
  UserState.loading (firstSettled api1 a1 a2 s) = false
  /\ suspended (snd (untilAwait (body a2) (fst (untilAwait (body a1) s)))) = true.
Proof.
  unfold firstSettled. split.
  - destruct a1, a2; cbn;
      match goal with
      | |- context [match ?call with Return _ => _ | Throw _ => _ end] => destruct call
      end; reflexivity.
  - destruct a2; reflexivity.
Qed.

(** X22: Two creations invoked together and both successful are both kept, in
    the order in which their promises settle: the second to settle adds to
    the collection the first has left. *)
Theorem overlapping_creates_are_both_kept api1 api2 data1 data2 user1 user2 s :
  userService.create api1 data1 = Return user1 ->
  userService.create api2 data2 = Return user2 ->
  UserState.users (settledInOrder api1 api2 (CreateUser data1) (CreateUser data2) s)
    = UserState.users s ++ [user1; user2]
  /\ UserState.users (settledInReverse api1 api2 (CreateUser data1) (CreateUser data2) s)
     = UserState.users s ++ [user2; user1].
Proof.
  intros H1 H2. unfold settledInOrder, settledInReverse. cbn. rewrite H1, H2. cbn.
  rewrite <- !app_assoc. auto.
Qed.

Lemma overlapping_creates_are_both_kept_witness :
  UserState.users
    (settledInReverse (answering (userJson idAna "Ana")) (answering (userJson idBia "Bia"))
       (CreateUser (createInput (js "Ana") (js "ana@example.com") (js "Abcdef1")))
       (CreateUser (createInput (js "Bia") (js "ana@example.com") (js "Abcdef1")))
       useUserStore.initial)
    = [bia; ana].
Proof.
  exact (proj2 (overlapping_creates_are_both_kept
                  (answering (userJson idAna "Ana")) (answering (userJson idBia "Bia"))
                  (createInput (js "Ana") (js "ana@example.com") (js "Abcdef1"))
                  (createInput (js "Bia") (js "ana@example.com") (js "Abcdef1"))
                  ana bia useUserStore.initial eq_refl eq_refl)).
Defined.

(** X23: A list fetched before another action was invoked, and arriving after
    that action has settled, replaces the collection all the same: what the
    other action did to the collection is lost. *)
Theorem late_fetchUsers_overwrites api1 api2 a2 users s :
  userService.list api1 = Return users ->
  UserState.users (settledInReverse api1 api2 FetchUsers a2 s) = users.
Proof.
  intros Hlist. unfold settledInReverse. cbn. rewrite Hlist. reflexivity.
Qed.

Lemma late_fetchUsers_overwrites_witness :
  UserState.users
    (settledInReverse (answering (JArray [userJson idAna "Ana"; userJson idBia "Bia"]))
       (answering JNull) FetchUsers (DeleteUser idBia)
       (UserState.mk [ana; bia] false None None))
    = [ana; bia].
Proof.
  exact (late_fetchUsers_overwrites
           (answering (JArray [userJson idAna "Ana"; userJson idBia "Bia"]))
           (answering JNull) (DeleteUser idBia) [ana; bia]
           (UserState.mk [ana; bia] false None None) eq_refl).
Defined.

(** ** The form *)

Lemma asyncStore_updateUser_fulfils api id userData s ui :
  asyncStore.updateUser api id userData (s, ui)
    = ((dispatch api (UpdateUser id userData) s, ui), Return tt).
Proof.
  unfold asyncStore.updateUser, dispatch, Async.tryCatch. cbn -[js].
  unfold mbind, async_bind, Async.bind, Async.setState, Async.await. cbn -[js].
  destruct (userService.update api id userData); reflexivity.
Qed.

Lemma asyncStore_createUser_fulfils api userData s ui :
  asyncStore.createUser api userData (s, ui)
    = ((dispatch api (CreateUser userData) s, ui), Return tt).
Proof.
  unfold asyncStore.createUser, dispatch, Async.tryCatch. cbn -[js].
  unfold mbind, async_bind, Async.bind, Async.setState, Async.await. cbn -[js].
  destruct (userService.create api userData); reflexivity.
Qed.

(** X24: [handleSubmit] always takes the branch of the update, with the
    identifier ["233"], and always ends with the alert of success and the
    screen going back: the promise of [updateUser] is fulfilled also when
    the service throws, because its [catch] takes what was thrown; the
    store notes the error and the handler does not learn of it. *)
Theorem handleSubmit_always_reports_success api data s ui :
  UserFormScreen.handleSubmit api data (s, ui)
    = ((dispatch api (UpdateUser (js "233") data) s,
        ui ++ [AlertShown "Sucesso" "Usuário atualizado com sucesso!"; WentBack]),
       Return tt)
  /\ (forall e,
        userService.update api (js "233") data = Throw e ->
        UserState.error (fst (fst (UserFormScreen.handleSubmit api data (s, ui))))
          = Some (errorText e "Erro ao atualizar usuário")
        /\ UserState.users (fst (fst (UserFormScreen.handleSubmit api data (s, ui))))
           = UserState.users s).
Proof.
  assert (Hrun : UserFormScreen.handleSubmit api data (s, ui)
                 = ((dispatch api (UpdateUser (js "233") data) s,
                     ui ++ [AlertShown "Sucesso" "Usuário atualizado com sucesso!"; WentBack]),
                    Return tt)).
  { unfold UserFormScreen.handleSubmit, Async.tryCatch.
    change (truthy UserFormScreen.userId) with true. cbv iota.
    unfold mbind, async_bind, Async.bind at 1 2.
    change UserFormScreen.userId with (js "233").
    rewrite asyncStore_updateUser_fulfils. cbn -[js dispatch].
    rewrite <- app_assoc. reflexivity. }
  split; [exact Hrun|]. intros e He. rewrite Hrun. cbn -[js dispatch].
  rewrite (dispatch_failure api s (UpdateUser (js "233") data) e);
    [auto | cbn -[js]; rewrite He; reflexivity].
Qed.

(** ** More on the password and on failures *)

(** X2: For a name, an email and a password that are strings, the password of
    one line, [createUserSchema] accepts exactly when the name has 1 to 255
    characters, the email matches the pattern of emails, and the password
    has at least 6 characters with an upper case letter, a lower case
    letter and a digit among them. *)
Theorem createUserSchema_accepts_single_line_password name email password :
  Forall (fun c => lineTerminator c = false) password ->
  accepts createUserSchema (createInput name email password) = true <->
  1 <= length name <= 255
  /\ matches emailRegex email = true
  /\ 6 <= length password
  /\ existsb upper password = true
  /\ existsb lower password = true
  /\ existsb digit password = true.
Proof.
  intros Hline. rewrite createUserSchema_accepts_first_line.
  rewrite (firstLine_of_one_line _ Hline). reflexivity.
Qed.

Lemma createUserSchema_accepts_single_line_password_witness :
  accepts createUserSchema
    (createInput (js "Ana") (js "ana@example.com") (js "Abcdef1")) = true
  <-> 1 <= length (js "Ana") <= 255
      /\ matches emailRegex (js "ana@example.com") = true
      /\ 6 <= length (js "Abcdef1")
      /\ existsb upper (js "Abcdef1") = true
      /\ existsb lower (js "Abcdef1") = true
      /\ existsb digit (js "Abcdef1") = true.
Proof.
  apply (createUserSchema_accepts_single_line_password
           (js "Ana") (js "ana@example.com") (js "Abcdef1")).
  apply (bool_decide_unpack _). vm_compute. exact I.
Defined.

(** X20: An action whose promise is rejected only after other writes to the
    state (the state is [s'] by then) sets [error] to the text of what was
    thrown and [loading] to false, and keeps the collection and the
    selection it finds at that moment. *)
Theorem rejection_after_other_writes api a s s' e :
  failure api a = Some e ->
  UserState.error (run api (snd (untilAwait (body a) s)) s')
    = Some (errorText e (fallbackText a))
  /\ UserState.loading (run api (snd (untilAwait (body a) s)) s') = false
  /\ UserState.users (run api (snd (untilAwait (body a) s)) s') = UserState.users s'
  /\ UserState.selectedUser (run api (snd (untilAwait (body a) s)) s')
     = UserState.selectedUser s'.
Proof.
  intros Hfail. rewrite (failing_action_after_other_writes _ _ _ _ _ Hfail). cbn. auto.
Qed.

Lemma rejection_after_other_writes_witness :
  UserState.error
    (run offline (snd (untilAwait (body FetchUsers) useUserStore.initial))
       (UserState.mk [ana] true None (Some bia))) = Some (Text "Network Error")
  /\ UserState.loading
       (run offline (snd (untilAwait (body FetchUsers) useUserStore.initial))
          (UserState.mk [ana] true None (Some bia))) = false
  /\ UserState.users
       (run offline (snd (untilAwait (body FetchUsers) useUserStore.initial))
          (UserState.mk [ana] true None (Some bia))) = [ana]
  /\ UserState.selectedUser
       (run offline (snd (untilAwait (body FetchUsers) useUserStore.initial))
          (UserState.mk [ana] true None (Some bia))) = Some bia.
Proof.
  exact (rejection_after_other_writes offline FetchUsers useUserStore.initial
           (UserState.mk [ana] true None (Some bia))
           (AxiosError (Axios.mkError "Network Error" None)) eq_refl).
Defined.
